(** * MPT therapist bot: the session orchestration core

    A shallow embedding of the [session-state] module (stage registry, fact
    extractors, category classifier, transition evaluator), of
    [chatRequestSchema] of [shared/schema.ts] and of the state handling of
    the [/api/chat] and [/api/sessions/new] routes of [registerRoutes], with
    the properties of the stage machine. *)

From Stdlib Require Import NArith Ascii String.
From stdpp Require Import gmap strings list.

Local Open Scope N_scope.
Local Open Scope nat_scope.
Local Open Scope string_scope.
Local Open Scope list_scope.

(** ** JavaScript strings

    A JavaScript string is a sequence of UTF-16 code units.  String literals
    of the source are written as Rocq literals (UTF-8 bytes) and decoded by
    [js]. *)

Abbreviation jsstring := (list N).

Fixpoint bytesOf (s : string) : list N :=
  match s with
  | EmptyString => []
  | String a s' => N_of_ascii a :: bytesOf s'
  end.

(** A code point as UTF-16: one unit in the basic plane, else a surrogate pair. *)
Definition utf16 (cp : N) : jsstring :=
  if (cp <? 0x10000)%N then [cp]
  else [(0xD800 + (cp - 0x10000) / 0x400)%N; (0xDC00 + (cp - 0x10000) mod 0x400)%N].

(** UTF-8 decoding: [need] continuation bytes are still expected for the code
    point accumulated in [acc]. *)
Fixpoint utf8 (bs : list N) (need : nat) (acc : N) : jsstring :=
  match bs with
  | [] => []
  | b :: bs' =>
    match need with
    | O =>
      if (b <? 0x80)%N then b :: utf8 bs' 0 0%N
      else if (b <? 0xE0)%N then utf8 bs' 1 (b mod 0x20)%N
      else if (b <? 0xF0)%N then utf8 bs' 2 (b mod 0x10)%N
      else utf8 bs' 3 (b mod 0x08)%N
    | S n =>
      let acc' := (acc * 0x40 + b mod 0x40)%N in
      match n with
      | O => utf16 acc' ++ utf8 bs' 0 0%N
      | S _ => utf8 bs' n acc'
      end
    end
  end.

Definition js (s : string) : jsstring := utf8 (bytesOf s) 0 0%N.

Definition eqs (a b : jsstring) : bool := bool_decide (a = b).

Fixpoint startsWith (p s : jsstring) : bool :=
  match p, s with
  | [], _ => true
  | _ :: _, [] => false
  | a :: p', b :: s' => (a =? b)%N && startsWith p' s'
  end.

(** [s.includes(p)]: [p] occurs in [s] as a substring. *)
Fixpoint includes (s p : jsstring) : bool :=
  startsWith p s ||
  match s with
  | [] => false
  | _ :: s' => includes s' p
  end.

(** [arr.includes(x)] on an array of strings. *)
Definition arrayIncludes (arr : list jsstring) (x : jsstring) : bool :=
  existsb (eqs x) arr.

(** ** The case tables of the JavaScript runtime

    [toLowerCase], [toUpperCase] and the [Canonicalize] operation of regular
    expressions with the [i] flag belong to the runtime (they follow the
    Unicode tables of the engine), not to the repository: they are taken as
    an interface.  The general theorems hold for every instance. *)

Class JsRuntime := {
  toLowerCase : jsstring -> jsstring;
  toUpperCase : jsstring -> jsstring;
  canonicalize : N -> N
}.

(** The instance used to run the code on concrete utterances: the simple case
    mappings of the Basic Latin block and of the Cyrillic block U+0400-U+045F,
    every other code unit unchanged.  The keyword tables, the patterns and the
    utterances evaluated below lie within these two blocks. *)
Module Basic.

Definition lowerUnit (c : N) : N :=
  if (0x41 <=? c)%N && (c <=? 0x5A)%N then (c + 0x20)%N
  else if (0x400 <=? c)%N && (c <=? 0x40F)%N then (c + 0x50)%N
  else if (0x410 <=? c)%N && (c <=? 0x42F)%N then (c + 0x20)%N
  else c.

Definition upperUnit (c : N) : N :=
  if (0x61 <=? c)%N && (c <=? 0x7A)%N then (c - 0x20)%N
  else if (0x450 <=? c)%N && (c <=? 0x45F)%N then (c - 0x50)%N
  else if (0x430 <=? c)%N && (c <=? 0x44F)%N then (c - 0x20)%N
  else c.

#[export] Instance runtime : JsRuntime := {|
  toLowerCase := map lowerUnit;
  toUpperCase := map upperUnit;
  canonicalize := upperUnit
|}.

End Basic.

(** ** Regular expressions

    The fragment of ECMAScript regular expressions that the extractors use,
    with the backtracking semantics of the language: quantifiers are greedy,
    alternatives are tried left to right, and [match] returns the leftmost
    match.  Quantifiers are applied to character classes only, as in every
    pattern of the source. *)

(** A character class: a union of ranges of code units, possibly negated. *)
Record charset := { ranges : list (N * N); negated : bool }.

Definition digit : charset := {| ranges := [(0x30, 0x39)%N]; negated := false |}.
Definition notDigit : charset := {| ranges := [(0x30, 0x39)%N]; negated := true |}.

(** [\s]: WhiteSpace and LineTerminator. *)
Definition spaceRanges : list (N * N) :=
  [(0x09, 0x0D); (0x20, 0x20); (0xA0, 0xA0); (0x1680, 0x1680); (0x2000, 0x200A);
   (0x2028, 0x2029); (0x202F, 0x202F); (0x205F, 0x205F); (0x3000, 0x3000);
   (0xFEFF, 0xFEFF)]%N.
Definition space : charset := {| ranges := spaceRanges; negated := false |}.

Inductive regex :=
  | REps                                            (* the empty pattern *)
  | RChar (c : N)                                   (* a literal character *)
  | RSet (cs : charset)                             (* [...] , \d , \s *)
  | RRep (cs : charset) (lo : nat) (hi : option nat) (* cs{lo,hi}, cs*, cs+ *)
  | ROpt (r : regex)                                (* r? *)
  | RAlt (r1 r2 : regex)                            (* r1|r2 *)
  | RSeq (r1 r2 : regex)
  | RGroup1 (r : regex)                             (* the first capturing group *)
  | RBol                                            (* ^ *)
  | REol.                                           (* $ *)

(** A literal string, as the sequence of its characters. *)
Fixpoint RLit (s : jsstring) : regex :=
  match s with
  | [] => REps
  | c :: s' => RSeq (RChar c) (RLit s')
  end.

Definition star (cs : charset) : regex := RRep cs 0 None.
Definition plus (cs : charset) : regex := RRep cs 1 None.

Section Matcher.
(** [canon] is [canonicalize] for a pattern with the [i] flag and the
    identity without it. *)
Variable canon : N -> N.

Fixpoint enum (lo : N) (n : nat) : list N :=
  match n with
  | O => []
  | S n' => lo :: enum (lo + 1)%N n'
  end.

Definition rangeMembers (r : N * N) : list N :=
  enum (fst r) (N.to_nat (snd r + 1 - fst r)%N).

(** CharacterSetMatcher: some member of the set has the canonical form of
    the input character; the outcome is inverted for a negated class. *)
Definition inSet (cs : charset) (ch : N) : bool :=
  xorb (negated cs)
       (existsb (fun r => existsb (fun a => (canon a =? canon ch)%N) (rangeMembers r))
                (ranges cs)).

(** The state of a match attempt: whether the position is the start of the
    input, the rest of the input, and the first capture. *)
Definition cont := bool -> jsstring -> option jsstring -> option (option jsstring).

(** Greedy repetition: one more character first, the continuation only when
    that fails. *)
Fixpoint rep (cs : charset) (lo : nat) (hi : option nat) (k : bool -> jsstring -> option (option jsstring))
         (atStart : bool) (inp : jsstring) : option (option jsstring) :=
  let stop := match lo with O => k atStart inp | S _ => None end in
  match inp with
  | [] => stop
  | ch :: inp' =>
    let more :=
      if inSet cs ch then
        match hi with
        | None => rep cs (pred lo) None k false inp'
        | Some (S h) => rep cs (pred lo) (Some h) k false inp'
        | Some O => None
        end
      else None in
    match more with
    | Some res => Some res
    | None => stop
    end
  end.

Fixpoint run (r : regex) (k : cont) (atStart : bool) (inp : jsstring)
         (cap : option jsstring) : option (option jsstring) :=
  match r with
  | REps => k atStart inp cap
  | RChar c =>
    match inp with
    | ch :: inp' => if (canon c =? canon ch)%N then k false inp' cap else None
    | [] => None
    end
  | RSet cs =>
    match inp with
    | ch :: inp' => if inSet cs ch then k false inp' cap else None
    | [] => None
    end
  | RRep cs lo hi => rep cs lo hi (fun b rest => k b rest cap) atStart inp
  | ROpt r1 =>
    match run r1 k atStart inp cap with
    | Some res => Some res
    | None => k atStart inp cap
    end
  | RAlt r1 r2 =>
    match run r1 k atStart inp cap with
    | Some res => Some res
    | None => run r2 k atStart inp cap
    end
  | RSeq r1 r2 => run r1 (fun b rest cap' => run r2 k b rest cap') atStart inp cap
  | RGroup1 r1 =>
    run r1 (fun b rest _ => k b rest (Some (take (length inp - length rest) inp)))
        atStart inp cap
  | RBol => if atStart then k atStart inp cap else None
  | REol => match inp with [] => k atStart inp cap | _ :: _ => None end
  end.

(** The leftmost match, tried from every position in turn. *)
Fixpoint execFrom (r : regex) (atStart : bool) (inp : jsstring) : option (option jsstring) :=
  match run r (fun _ _ cap => Some cap) atStart inp None with
  | Some cap => Some cap
  | None =>
    match inp with
    | [] => None
    | _ :: inp' => execFrom r false inp'
    end
  end.
End Matcher.

(** A pattern with its flag. *)
Record pattern := { source : regex; ignoreCase : bool }.

(** [s.match(p)[1]] for a pattern without the [g] flag: [None] when there is
    no match, [Some None] when the match leaves the first group undefined. *)
Definition matchGroup1 `{JsRuntime} (p : pattern) (s : jsstring) : option (option jsstring) :=
  execFrom (if ignoreCase p then canonicalize else (fun c => c)) (source p) true s.

(** ** The stage registry *)

Inductive MPTStage :=
  | start_session
  | collect_context
  | clarify_request
  | explore_strategy
  | find_need
  | bodywork
  | metaphor
  | meta_position
  | integration
  | plan_actions
  | finish.

#[global] Instance MPTStage_eq_dec : EqDecision MPTStage.
Proof. solve_decision. Defined.

Definition MPT_STAGE_ORDER : list MPTStage :=
  [start_session; collect_context; clarify_request; explore_strategy; find_need;
   bodywork; metaphor; meta_position; integration; plan_actions; finish].

(** The fields of [StageConfig] that the state machine reads; [russianName],
    [goal], [questions] and [transitionCriteria] are prompt text. *)
Record StageConfig := { name : MPTStage; minResponses : nat }.

Definition MPT_STAGE_CONFIG (stage : MPTStage) : StageConfig :=
  match stage with
  | start_session => {| name := start_session; minResponses := 1 |}
  | collect_context => {| name := collect_context; minResponses := 2 |}
  | clarify_request => {| name := clarify_request; minResponses := 3 |}
  | explore_strategy => {| name := explore_strategy; minResponses := 3 |}
  | find_need => {| name := find_need; minResponses := 3 |}
  | bodywork => {| name := bodywork; minResponses := 4 |}
  | metaphor => {| name := metaphor; minResponses := 3 |}
  | meta_position => {| name := meta_position; minResponses := 3 |}
  | integration => {| name := integration; minResponses := 3 |}
  | plan_actions => {| name := plan_actions; minResponses := 2 |}
  | finish => {| name := finish; minResponses := 1 |}
  end.

(** ** The data model *)

Record RequestClarification := {
  isPositive : option bool;
  hasAuthorship : option bool;
  isConcrete : option bool;
  isRealistic : option bool;
  motivationChecked : option bool;
  rc_clarifiedRequest : option jsstring   (* [clarifiedRequest] *)
}.

Record BodyworkData := {
  location : option jsstring;
  size : option jsstring;
  shape : option jsstring;
  density : option jsstring;
  temperature : option jsstring;
  movement : option jsstring;
  impulse : option jsstring
}.

Record MetaphorData := {
  image : option jsstring;
  qualities : option jsstring;
  md_energyLevel : option nat             (* [energyLevel] *)
}.

Record MetaPositionData := {
  viewOfSelf : option jsstring;
  viewOfLife : option jsstring;
  viewOfStrategy : option jsstring;
  insight : option jsstring;
  messageFromImage : option jsstring
}.

Record IntegrationData := {
  newFeeling : option jsstring;
  movementDone : bool;
  integratedState : option jsstring
}.

Record TherapyContext := {
  clientName : option jsstring;
  currentGoal : option jsstring;
  originalRequest : option jsstring;
  clarifiedRequest : option jsstring;
  currentStrategy : option jsstring;
  strategyIntention : option jsstring;
  deepNeed : option jsstring;
  bodyLocation : option jsstring;
  ctx_metaphor : option jsstring;         (* [metaphor] *)
  energyLevel : option nat;
  newActions : list jsstring;
  firstStep : option jsstring;
  homework : option jsstring;
  stageData : list (jsstring * jsstring);
  requestClarification : RequestClarification;
  bodyworkData : BodyworkData;
  metaphorData : MetaphorData;
  metaPositionData : MetaPositionData;
  integrationData : IntegrationData
}.

Inductive RequestType :=
  | fear_anxiety
  | procrastination
  | relationships
  | self_worth
  | burnout
  | lost_desires
  | role_conflict
  | resistance
  | trauma
  | identity
  | psychosomatic
  | general.

#[global] Instance RequestType_eq_dec : EqDecision RequestType.
Proof. solve_decision. Defined.

Record SessionState := {
  currentStage : MPTStage;
  stageResponseCount : nat;
  currentQuestionIndex : nat;
  stageHistory : list MPTStage;
  context : TherapyContext;
  requestType : option RequestType;
  importanceRating : option nat;
  lastClientResponse : jsstring;
  clientSaysIDontKnow : bool;
  movementOffered : bool;
  integrationComplete : bool;
  sessionStarted : bool;
  sessionComplete : bool
}.

(** ** The category classifier *)

Definition kw_fear_anxiety : list jsstring :=
  map js
  ["страх"; "боюсь"; "тревога"; "паника"; "волнуюсь"; "страшно"; "фобия";
   "беспокойство"; "навязчивые мысли"; "тревожусь"; "переживаю"; "ужас";
   "опасаюсь"; "боязнь"].

Definition kw_procrastination : list jsstring :=
  map js
  ["прокрастинация"; "откладываю"; "не могу начать"; "тяну время";
   "не могу заставить себя"; "всё время откладываю"; "никак не начну";
   "затягиваю"; "медлю"].

Definition kw_relationships : list jsstring :=
  map js
  ["отношения"; "партнер"; "муж"; "жена"; "девушка"; "парень"; "брак";
   "любовь"; "расставание"; "развод"; "ссоры"; "конфликты в паре";
   "не понимаем друг друга"; "разрыв"; "измена"; "ревность"].

Definition kw_self_worth : list jsstring :=
  map js
  ["самооценка"; "не уверен в себе"; "неуверенность"; "не достоин";
   "не заслуживаю"; "чувствую себя никчемным"; "самоценность";
   "не ценю себя"; "низкая самооценка"; "комплексы"].

Definition kw_burnout : list jsstring :=
  map js
  ["выгорание"; "устал"; "нет сил"; "апатия"; "энергии нет"; "истощение";
   "опустошен"; "выжат"; "burnout"; "перегорел"; "нет мотивации";
   "всё надоело"].

Definition kw_lost_desires : list jsstring :=
  map js
  ["не знаю чего хочу"; "потерял желания"; "ничего не хочу"; "нет целей";
   "нет смысла"; "не понимаю что хочу"; "потерял интерес"; "всё равно"].

Definition kw_role_conflict : list jsstring :=
  map js
  ["конфликт ролей"; "не могу выбрать"; "разрываюсь"; "противоречие";
   "две части"; "хочу и не хочу"; "должен но не хочу"; "внутренний конфликт"].

Definition kw_resistance : list jsstring :=
  map js
  ["сопротивление"; "не хочется"; "заставляю себя"; "нет мотивации";
   "саботирую"; "мешаю себе"; "не могу себя заставить"].

Definition kw_trauma : list jsstring :=
  map js
  ["травма"; "детство"; "родители"; "обида"; "прошлое"; "воспоминания";
   "больно"; "не отпускает"; "токсичные"; "насилие"; "жестокость"].

Definition kw_identity : list jsstring :=
  map js
  ["кто я"; "не знаю себя"; "потерял себя"; "смысл жизни";
   "предназначение"; "идентичность"; "самоопределение"; "кризис";
   "не понимаю себя"].

Definition kw_psychosomatic : list jsstring :=
  map js
  ["болит"; "тело"; "психосоматика"; "симптом"; "здоровье"; "напряжение";
   "зажим"; "блок"; "спина"; "голова"; "живот"; "грудь"; "горло"].

(** The entries of the table, in the order of its keys. *)
Definition REQUEST_TYPE_KEYWORDS : list (RequestType * list jsstring) :=
  [(fear_anxiety, kw_fear_anxiety);
   (procrastination, kw_procrastination);
   (relationships, kw_relationships);
   (self_worth, kw_self_worth);
   (burnout, kw_burnout);
   (lost_desires, kw_lost_desires);
   (role_conflict, kw_role_conflict);
   (resistance, kw_resistance);
   (trauma, kw_trauma);
   (identity, kw_identity);
   (psychosomatic, kw_psychosomatic);
   (general, [])].

(** The two nested loops of [detectRequestType] over the entries that are
    left. *)
Fixpoint detectIn (entries : list (RequestType * list jsstring)) (lowerMessage : jsstring)
  : RequestType :=
  match entries with
  | [] => general
  | (type, keywords) :: rest =>
    if bool_decide (type = general) then detectIn rest lowerMessage
    else if existsb (includes lowerMessage) keywords then type
    else detectIn rest lowerMessage
  end.

Definition detectRequestType `{JsRuntime} (message : jsstring) : RequestType :=
  let lowerMessage := toLowerCase message in
  detectIn REQUEST_TYPE_KEYWORDS lowerMessage.

(** ** The fact extractors *)

Definition iDontKnowPatterns : list jsstring :=
  map js
  ["не знаю"; "не понимаю"; "не чувствую"; "не могу ответить";
   "затрудняюсь"; "не уверен"; "не ощущаю"; "не вижу"; "непонятно";
   "сложно сказать"; "не могу сформулировать"].

Definition detectClientSaysIDontKnow `{JsRuntime} (message : jsstring) : bool :=
  let lowerMessage := toLowerCase message in
  existsb (includes lowerMessage) iDontKnowPatterns.

Inductive Role := user | assistant.

#[global] Instance Role_eq_dec : EqDecision Role.
Proof. solve_decision. Defined.

(** A message of the conversation; [id] and [timestamp] are not read by the
    core. *)
Record Message := { role : Role; content : jsstring }.

(** [[а-яёА-ЯЁa-zA-Z]] *)
Definition letter : charset :=
  {| ranges := [(0x430, 0x44F); (0x451, 0x451); (0x410, 0x42F); (0x401, 0x401);
                (0x61, 0x7A); (0x41, 0x5A)]%N;
     negated := false |}.

(** [[:\s]] *)
Definition colonOrSpace : charset :=
  {| ranges := (0x3A, 0x3A)%N :: spaceRanges; negated := false |}.

Definition nameGroup : regex := RGroup1 (plus letter).

Definition namePatterns : list pattern :=
  [ (* /меня зовут ([а-яёА-ЯЁa-zA-Z]+)/i *)
    {| source := RSeq (RLit (js "меня зовут ")) nameGroup; ignoreCase := true |};
    (* /зови меня ([а-яёА-ЯЁa-zA-Z]+)/i *)
    {| source := RSeq (RLit (js "зови меня ")) nameGroup; ignoreCase := true |};
    (* /можешь звать меня ([а-яёА-ЯЁa-zA-Z]+)/i *)
    {| source := RSeq (RLit (js "можешь звать меня ")) nameGroup; ignoreCase := true |};
    (* /моё? имя ([а-яёА-ЯЁa-zA-Z]+)/i *)
    {| source := RSeq (RLit (js "мо"))
                   (RSeq (ROpt (RLit (js "ё"))) (RSeq (RLit (js " имя ")) nameGroup));
       ignoreCase := true |};
    (* /имя[:\s]+([а-яёА-ЯЁa-zA-Z]+)/i *)
    {| source := RSeq (RLit (js "имя")) (RSeq (plus colonOrSpace) nameGroup);
       ignoreCase := true |};
    (* /я — ([а-яёА-ЯЁa-zA-Z]+)/i *)
    {| source := RSeq (RLit (js "я — ")) nameGroup; ignoreCase := true |};
    (* /привет,?\s+я ([а-яёА-ЯЁa-zA-Z]+)/i *)
    {| source := RSeq (RLit (js "привет"))
                   (RSeq (ROpt (RLit (js ",")))
                      (RSeq (plus space) (RSeq (RLit (js "я ")) nameGroup)));
       ignoreCase := true |} ].

Definition stopWords : list jsstring :=
  map js
  ["я"; "мне"; "меня"; "мой"; "моя"; "моё"; "это"; "что"; "как"; "так";
   "хочу"; "могу"; "буду"; "должен"; "чувствую"; "думаю"; "понимаю";
   "знаю"; "вижу"; "слышу"; "делаю"; "говорю"; "считаю"; "помню"; "люблю";
   "ненавижу"; "боюсь"; "хотел"; "была"; "был"; "есть"; "тоже"; "очень";
   "просто"; "тут"; "там"; "здесь"; "сейчас"; "всегда"; "никогда";
   "иногда"; "часто"; "редко"; "давно"; "рад"; "рада"; "готов"; "готова";
   "согласен"; "согласна"].

(** The body of the inner loop of [extractClientName] for one pattern: the
    name this pattern yields for the message, if it yields one.  The first
    group takes part in every match of every pattern, so [match[1]] is never
    undefined. *)
Definition nameByPattern `{JsRuntime} (text : jsstring) (p : pattern) : option jsstring :=
  match matchGroup1 p text with
  | Some (Some m) =>
    if (2 <=? length m)%nat && (length m <=? 20)%nat then
      let name := toUpperCase (take 1 m) ++ toLowerCase (drop 1 m) in
      if negb (arrayIncludes stopWords (toLowerCase name)) then Some name else None
    else None
  | _ => None
  end.

(** The first [Some] that [f] gives along the list: a loop that returns from
    the function at its first success. *)
Fixpoint firstSome {A B} (f : A -> option B) (l : list A) : option B :=
  match l with
  | [] => None
  | x :: l' =>
    match f x with
    | Some y => Some y
    | None => firstSome f l'
    end
  end.

Definition nameInMessage `{JsRuntime} (msg : Message) : option jsstring :=
  if bool_decide (role msg = user) then firstSome (nameByPattern (content msg)) namePatterns
  else None.

Definition extractClientName `{JsRuntime} (messages : list Message) : option jsstring :=
  firstSome nameInMessage messages.

(** [parseInt] on the strings the extractor passes: the decimal digits at the
    front are read, [None] stands for NaN. *)
Definition isDigit (c : N) : bool := (0x30 <=? c)%N && (c <=? 0x39)%N.

Fixpoint digitsValue (acc : nat) (s : jsstring) : nat :=
  match s with
  | [] => acc
  | c :: s' => if isDigit c then digitsValue (10 * acc + N.to_nat (c - 0x30)%N) s' else acc
  end.

Definition parseInt (s : option jsstring) : option nat :=
  match s with
  | Some (c :: s') => if isDigit c then Some (digitsValue 0 (c :: s')) else None
  | _ => None
  end.

Definition importancePatterns : list pattern :=
  [ (* /(\d{1,2})\s*(из|\/)\s*10/i ; the second group is not read *)
    {| source := RSeq (RGroup1 (RRep digit 1 (Some 2)))
                   (RSeq (star space)
                      (RSeq (RAlt (RLit (js "из")) (RLit (js "/")))
                         (RSeq (star space) (RLit (js "10")))));
       ignoreCase := true |};
    (* /на\s*(\d{1,2})/i *)
    {| source := RSeq (RLit (js "на")) (RSeq (star space) (RGroup1 (RRep digit 1 (Some 2))));
       ignoreCase := true |};
    (* /оцениваю[^\d]*(\d{1,2})/i *)
    {| source := RSeq (RLit (js "оцениваю"))
                   (RSeq (star notDigit) (RGroup1 (RRep digit 1 (Some 2))));
       ignoreCase := true |};
    (* /^(\d{1,2})$/ *)
    {| source := RSeq RBol (RSeq (RGroup1 (RRep digit 1 (Some 2))) REol);
       ignoreCase := false |} ].

(** The number a pattern captures in the message: [parseInt(match[1])]. *)
Definition capturedNumber `{JsRuntime} (message : jsstring) (p : pattern) : option nat :=
  match matchGroup1 p message with
  | Some g => parseInt g
  | None => None
  end.

(** The body of the loop of [extractImportanceRating] for one pattern. *)
Definition ratingByPattern `{JsRuntime} (message : jsstring) (p : pattern) : option nat :=
  match capturedNumber message p with
  | Some num => if (1 <=? num)%nat && (num <=? 10)%nat then Some num else None
  | None => None
  end.

Definition extractImportanceRating `{JsRuntime} (message : jsstring) : option nat :=
  firstSome (ratingByPattern message) importancePatterns.

(** ** The transition evaluator *)

Definition isNull {A} (x : option A) : bool :=
  match x with
  | None => true
  | Some _ => false
  end.

(** The [default] branch of the [switch] is not reachable: the eleven cases
    cover [MPTStage]. *)
Definition shouldTransitionToNextStage (state : SessionState) : bool :=
  let config := MPT_STAGE_CONFIG (currentStage state) in
  if (stageResponseCount state <? minResponses config)%nat then false
  else
    match currentStage state with
    | start_session => negb (isNull (originalRequest (context state)))
    | collect_context =>
      negb (isNull (importanceRating state)) || (3 <=? stageResponseCount state)%nat
    | clarify_request =>
      negb (isNull (clarifiedRequest (context state))) || (4 <=? stageResponseCount state)%nat
    | explore_strategy =>
      negb (isNull (currentStrategy (context state))) || (3 <=? stageResponseCount state)%nat
    | find_need =>
      negb (isNull (deepNeed (context state))) || (4 <=? stageResponseCount state)%nat
    | bodywork =>
      negb (isNull (bodyLocation (context state))) || (4 <=? stageResponseCount state)%nat
    | metaphor =>
      negb (isNull (ctx_metaphor (context state))) || (3 <=? stageResponseCount state)%nat
    | meta_position =>
      negb (isNull (insight (metaPositionData (context state))))
      || (3 <=? stageResponseCount state)%nat
    | integration => integrationComplete state || (3 <=? stageResponseCount state)%nat
    | plan_actions =>
      negb (isNull (firstStep (context state))) || (3 <=? stageResponseCount state)%nat
    | finish => (2 <=? stageResponseCount state)%nat
    end.

(** [arr.indexOf(x)], with [None] for -1. *)
Fixpoint indexOf (arr : list MPTStage) (x : MPTStage) : option nat :=
  match arr with
  | [] => None
  | y :: arr' => if bool_decide (y = x) then Some 0 else S <$> indexOf arr' x
  end.

Definition getNextStage (stage : MPTStage) : option MPTStage :=
  match indexOf MPT_STAGE_ORDER stage with
  | None => None
  | Some currentIndex =>
    if (length MPT_STAGE_ORDER - 1 <=? currentIndex)%nat then None
    else MPT_STAGE_ORDER !! (currentIndex + 1)
  end.

Definition transitionToNextStage (state : SessionState) : SessionState :=
  match getNextStage (currentStage state) with
  | None =>
    {| currentStage := currentStage state;
       stageResponseCount := stageResponseCount state;
       currentQuestionIndex := currentQuestionIndex state;
       stageHistory := stageHistory state;
       context := context state;
       requestType := requestType state;
       importanceRating := importanceRating state;
       lastClientResponse := lastClientResponse state;
       clientSaysIDontKnow := clientSaysIDontKnow state;
       movementOffered := movementOffered state;
       integrationComplete := integrationComplete state;
       sessionStarted := sessionStarted state;
       sessionComplete := true |}
  | Some nextStage =>
    {| currentStage := nextStage;
       stageResponseCount := 0;
       currentQuestionIndex := 0;
       stageHistory := stageHistory state ++ [currentStage state];
       context := context state;
       requestType := requestType state;
       importanceRating := importanceRating state;
       lastClientResponse := lastClientResponse state;
       clientSaysIDontKnow := clientSaysIDontKnow state;
       movementOffered := movementOffered state;
       integrationComplete := integrationComplete state;
       sessionStarted := sessionStarted state;
       sessionComplete := sessionComplete state |}
  end.

Definition initialContext : TherapyContext :=
  {| clientName := None;
     currentGoal := None;
     originalRequest := None;
     clarifiedRequest := None;
     currentStrategy := None;
     strategyIntention := None;
     deepNeed := None;
     bodyLocation := None;
     ctx_metaphor := None;
     energyLevel := None;
     newActions := [];
     firstStep := None;
     homework := None;
     stageData := [];
     requestClarification :=
       {| isPositive := None; hasAuthorship := None; isConcrete := None;
          isRealistic := None; motivationChecked := None; rc_clarifiedRequest := None |};
     bodyworkData :=
       {| location := None; size := None; shape := None; density := None;
          temperature := None; movement := None; impulse := None |};
     metaphorData := {| image := None; qualities := None; md_energyLevel := None |};
     metaPositionData :=
       {| viewOfSelf := None; viewOfLife := None; viewOfStrategy := None;
          insight := None; messageFromImage := None |};
     integrationData :=
       {| newFeeling := None; movementDone := false; integratedState := None |} |}.

Definition createInitialSessionState : SessionState :=
  {| currentStage := start_session;
     stageResponseCount := 0;
     currentQuestionIndex := 0;
     stageHistory := [];
     context := initialContext;
     requestType := None;
     importanceRating := None;
     lastClientResponse := [];
     clientSaysIDontKnow := false;
     movementOffered := false;
     integrationComplete := false;
     sessionStarted := false;
     sessionComplete := false |}.

(** ** Field assignments

    The routes mutate the state object in place; each assignment is a
    function here. *)

Definition setClientName (v : option jsstring) (c : TherapyContext) : TherapyContext :=
  {| clientName := v;
     currentGoal := currentGoal c;
     originalRequest := originalRequest c;
     clarifiedRequest := clarifiedRequest c;
     currentStrategy := currentStrategy c;
     strategyIntention := strategyIntention c;
     deepNeed := deepNeed c;
     bodyLocation := bodyLocation c;
     ctx_metaphor := ctx_metaphor c;
     energyLevel := energyLevel c;
     newActions := newActions c;
     firstStep := firstStep c;
     homework := homework c;
     stageData := stageData c;
     requestClarification := requestClarification c;
     bodyworkData := bodyworkData c;
     metaphorData := metaphorData c;
     metaPositionData := metaPositionData c;
     integrationData := integrationData c |}.

Definition setOriginalRequest (v : option jsstring) (c : TherapyContext) : TherapyContext :=
  {| clientName := clientName c;
     currentGoal := currentGoal c;
     originalRequest := v;
     clarifiedRequest := clarifiedRequest c;
     currentStrategy := currentStrategy c;
     strategyIntention := strategyIntention c;
     deepNeed := deepNeed c;
     bodyLocation := bodyLocation c;
     ctx_metaphor := ctx_metaphor c;
     energyLevel := energyLevel c;
     newActions := newActions c;
     firstStep := firstStep c;
     homework := homework c;
     stageData := stageData c;
     requestClarification := requestClarification c;
     bodyworkData := bodyworkData c;
     metaphorData := metaphorData c;
     metaPositionData := metaPositionData c;
     integrationData := integrationData c |}.

Definition setContext (c : TherapyContext) (s : SessionState) : SessionState :=
  {| currentStage := currentStage s;
     stageResponseCount := stageResponseCount s;
     currentQuestionIndex := currentQuestionIndex s;
     stageHistory := stageHistory s;
     context := c;
     requestType := requestType s;
     importanceRating := importanceRating s;
     lastClientResponse := lastClientResponse s;
     clientSaysIDontKnow := clientSaysIDontKnow s;
     movementOffered := movementOffered s;
     integrationComplete := integrationComplete s;
     sessionStarted := sessionStarted s;
     sessionComplete := sessionComplete s |}.

Definition setRequestType (v : option RequestType) (s : SessionState) : SessionState :=
  {| currentStage := currentStage s;
     stageResponseCount := stageResponseCount s;
     currentQuestionIndex := currentQuestionIndex s;
     stageHistory := stageHistory s;
     context := context s;
     requestType := v;
     importanceRating := importanceRating s;
     lastClientResponse := lastClientResponse s;
     clientSaysIDontKnow := clientSaysIDontKnow s;
     movementOffered := movementOffered s;
     integrationComplete := integrationComplete s;
     sessionStarted := sessionStarted s;
     sessionComplete := sessionComplete s |}.

Definition setSessionStarted (v : bool) (s : SessionState) : SessionState :=
  {| currentStage := currentStage s;
     stageResponseCount := stageResponseCount s;
     currentQuestionIndex := currentQuestionIndex s;
     stageHistory := stageHistory s;
     context := context s;
     requestType := requestType s;
     importanceRating := importanceRating s;
     lastClientResponse := lastClientResponse s;
     clientSaysIDontKnow := clientSaysIDontKnow s;
     movementOffered := movementOffered s;
     integrationComplete := integrationComplete s;
     sessionStarted := v;
     sessionComplete := sessionComplete s |}.

Definition setImportanceRating (v : option nat) (s : SessionState) : SessionState :=
  {| currentStage := currentStage s;
     stageResponseCount := stageResponseCount s;
     currentQuestionIndex := currentQuestionIndex s;
     stageHistory := stageHistory s;
     context := context s;
     requestType := requestType s;
     importanceRating := v;
     lastClientResponse := lastClientResponse s;
     clientSaysIDontKnow := clientSaysIDontKnow s;
     movementOffered := movementOffered s;
     integrationComplete := integrationComplete s;
     sessionStarted := sessionStarted s;
     sessionComplete := sessionComplete s |}.

(** [lastClientResponse], [clientSaysIDontKnow] and the incremented counter,
    the three assignments that open a turn. *)
Definition recordResponse (message : jsstring) (idk : bool) (s : SessionState) : SessionState :=
  {| currentStage := currentStage s;
     stageResponseCount := S (stageResponseCount s);
     currentQuestionIndex := currentQuestionIndex s;
     stageHistory := stageHistory s;
     context := context s;
     requestType := requestType s;
     importanceRating := importanceRating s;
     lastClientResponse := message;
     clientSaysIDontKnow := idk;
     movementOffered := movementOffered s;
     integrationComplete := integrationComplete s;
     sessionStarted := sessionStarted s;
     sessionComplete := sessionComplete s |}.

(** ** The routes

    The server keeps two maps keyed by session id: [sessions] (the
    conversation) and [sessionStates] (the state of the stage machine).  Of a
    [Session] the core reads the messages only; the scenario, the script, the
    phase label and the copy of the initial state kept in [session.state] are
    never read back by the state machine. *)

Record Session := { messages : list Message }.

Record Store := {
  sessions : gmap jsstring Session;
  sessionStates : gmap jsstring SessionState
}.

Definition emptyStore : Store := {| sessions := ∅; sessionStates := ∅ |}.

(** A field of the JSON body of a request. *)
Inductive jsonValue :=
  | JUndefined
  | JString (s : jsstring)
  | JOther.                       (* a number, a boolean, null, an array, an object *)

Record ChatBody := {
  body_message : jsonValue;
  body_sessionId : jsonValue;
  body_scenarioId : jsonValue
}.

(** The data of a request that passed [chatRequestSchema]. *)
Record ChatRequest := {
  message : jsstring;
  sessionId : option jsstring;
  scenarioId : option jsstring
}.

(** [z.string().optional()] *)
Definition optionalString (v : jsonValue) : option (option jsstring) :=
  match v with
  | JUndefined => Some None
  | JString s => Some (Some s)
  | JOther => None
  end.

(** [chatRequestSchema.safeParse]: [message] is [z.string().min(1)]. *)
Definition chatRequestSchema (body : ChatBody) : option ChatRequest :=
  match body_message body with
  | JString m =>
    if (1 <=? length m)%nat then
      match optionalString (body_sessionId body), optionalString (body_scenarioId body) with
      | Some sid, Some scn => Some {| message := m; sessionId := sid; scenarioId := scn |}
      | _, _ => None
      end
    else None
  | _ => None
  end.

Inductive response :=
  | InvalidRequest                                      (* status 400 *)
  | EventStream (id : jsstring) (stage : MPTStage) (done : bool)
  | SessionCreated (id : jsstring) (stage : MPTStage).

(** The state stored for a session that the first message creates. *)
Definition newSessionState `{JsRuntime} (message : jsstring) : SessionState :=
  let requestType := detectRequestType message in
  let initialState := createInitialSessionState in
  let initialState := setRequestType (Some requestType) initialState in
  let initialState :=
    setContext (setOriginalRequest (Some message) (context initialState)) initialState in
  setSessionStarted true initialState.

(** The first half of a turn: the response is recorded and the extractors
    run; [history] is the conversation with the new message at its end.  A
    name is kept when it is truthy, a rating when it is not null. *)
Definition applyExtractors `{JsRuntime} (history : list Message) (message : jsstring)
           (sessionState : SessionState) : SessionState :=
  let sessionState :=
    recordResponse message (detectClientSaysIDontKnow message) sessionState in
  let sessionState :=
    match extractClientName history with
    | Some (c :: n) =>
      setContext (setClientName (Some (c :: n)) (context sessionState)) sessionState
    | _ => sessionState
    end in
  match extractImportanceRating message with
  | Some r => setImportanceRating (Some r) sessionState
  | None => sessionState
  end.

(** One turn of the stage machine on the state of a session: the transition
    is applied when the evaluator calls for it. *)
Definition processTurn `{JsRuntime} (history : list Message) (message : jsstring)
           (sessionState : SessionState) : SessionState :=
  let sessionState := applyExtractors history message sessionState in
  if shouldTransitionToNextStage sessionState then transitionToNextStage sessionState
  else sessionState.

Definition pushMessage (msg : Message) (s : Session) : Session :=
  {| messages := messages s ++ [msg] |}.

Definition pushTo (id : jsstring) (msg : Message) (σ : Store) : Store :=
  {| sessions := alter (pushMessage msg) id (sessions σ);
     sessionStates := sessionStates σ |}.

Definition historyOf (σ : Store) (id : jsstring) : list Message :=
  match sessions σ !! id with
  | Some s => messages s
  | None => []
  end.

(** [sessionId && sessions.has(sessionId)] *)
Definition existingSession (σ : Store) (sid : option jsstring) : option jsstring :=
  match sid with
  | Some (c :: s) => if bool_decide (is_Some (sessions σ !! (c :: s))) then Some (c :: s) else None
  | _ => None
  end.

(** The session of a request: the one it names when that exists, else a new
    one under the id [uuid]. *)
Definition openSession `{JsRuntime} (uuid : jsstring) (req : ChatRequest) (σ : Store)
  : jsstring * Store :=
  match existingSession σ (sessionId req) with
  | Some id => (id, σ)
  | None =>
    (uuid,
     {| sessions := <[uuid := {| messages := [] |}]> (sessions σ);
        sessionStates := <[uuid := newSessionState (message req)]> (sessionStates σ) |})
  end.

(** The state of the session, or a new one when the map has none. *)
Definition stateOf (σ : Store) (id : jsstring) (message : jsstring) : SessionState :=
  match sessionStates σ !! id with
  | Some st => st
  | None =>
    setContext (setOriginalRequest (Some message) initialContext) createInitialSessionState
  end.

(** The user message is appended to the session and the turn is processed. *)
Definition turn `{JsRuntime} (id : jsstring) (message : jsstring) (σ : Store) : Store :=
  let σ := pushTo id {| role := user; content := message |} σ in
  let sessionState := processTurn (historyOf σ id) message (stateOf σ id message) in
  {| sessions := sessions σ;
     sessionStates := <[id := sessionState]> (sessionStates σ) |}.

(** [POST /api/chat].  [uuid] is the value [randomUUID()] gives for a new
    session; [reply] is the content of the assistant message the handler
    appends (the fixed practice answer, the generated text or its fallback),
    [None] when generation throws and no message is appended. *)
Definition postChat `{JsRuntime} (uuid : jsstring) (reply : option jsstring)
           (body : ChatBody) (σ : Store) : response * Store :=
  match chatRequestSchema body with
  | None => (InvalidRequest, σ)
  | Some req =>
    let (id, σ) := openSession uuid req σ in
    let σ := turn id (message req) σ in
    let stage := currentStage (stateOf σ id (message req)) in
    match reply with
    | Some text =>
      (EventStream id stage true, pushTo id {| role := assistant; content := text |} σ)
    | None => (EventStream id stage false, σ)
    end
  end.

(** [POST /api/sessions/new] *)
Definition postSessionsNew (uuid : jsstring) (σ : Store) : response * Store :=
  let initialState := createInitialSessionState in
  (SessionCreated uuid (currentStage initialState),
   {| sessions := <[uuid := {| messages := [] |}]> (sessions σ);
      sessionStates := <[uuid := initialState]> (sessionStates σ) |}).

(** The requests that change the store. *)
Inductive request :=
  | PostChat (uuid : jsstring) (reply : option jsstring) (body : ChatBody)
  | PostSessionsNew (uuid : jsstring).

Definition handle `{JsRuntime} (r : request) (σ : Store) : response * Store :=
  match r with
  | PostChat uuid reply body => postChat uuid reply body σ
  | PostSessionsNew uuid => postSessionsNew uuid σ
  end.

Definition uuidOf (r : request) : jsstring :=
  match r with
  | PostChat uuid _ _ => uuid
  | PostSessionsNew uuid => uuid
  end.

(** [randomUUID()] does not repeat an id that is in use.  (A chat request
    for an existing session does not draw an id; its [uuid] is not read.) *)
Definition freshUuid (r : request) (σ : Store) : Prop :=
  sessions σ !! uuidOf r = None /\ sessionStates σ !! uuidOf r = None.

(** The stores the server can be in. *)
Inductive reachable `{JsRuntime} : Store -> Prop :=
  | reachable_empty : reachable emptyStore
  | reachable_handle r σ :
      reachable σ -> freshUuid r σ -> reachable (snd (handle r σ)).

(** A sequence of requests served in order. *)
Fixpoint serve `{JsRuntime} (rs : list request) (σ : Store) : Store :=
  match rs with
  | [] => σ
  | r :: rs' => serve rs' (snd (handle r σ))
  end.

Fixpoint allFresh `{JsRuntime} (rs : list request) (σ : Store) : Prop :=
  match rs with
  | [] => True
  | r :: rs' => freshUuid r σ /\ allFresh rs' (snd (handle r σ))
  end.

(** ** The order of the stages and the ceilings *)

(** The position of a stage in [MPT_STAGE_ORDER]. *)
Definition stageIndex (stage : MPTStage) : nat :=
  match indexOf MPT_STAGE_ORDER stage with
  | Some i => i
  | None => 0
  end.

(** The stage at which a session is observed: the stage of its state, and
    for a session that does not exist yet the stage every session is created
    at. *)
Definition observedStage (σ : Store) (id : jsstring) : MPTStage :=
  match sessionStates σ !! id with
  | Some st => currentStage st
  | None => currentStage createInitialSessionState
  end.

(** The turn-count ceiling of a stage: the number its case of the [switch] of
    [shouldTransitionToNextStage] compares the response count with, next to
    the test of the target fact.  [start_session] has no ceiling and [finish]
    no target fact. *)
Definition turnCeiling (stage : MPTStage) : option nat :=
  match stage with
  | collect_context => Some 3
  | clarify_request => Some 4
  | explore_strategy => Some 3
  | find_need => Some 4
  | bodywork => Some 4
  | metaphor => Some 3
  | meta_position => Some 3
  | integration => Some 3
  | plan_actions => Some 3
  | start_session | finish => None
  end.

(** The target facts that no route assigns. *)
Definition unassignedFacts (c : TherapyContext) : list (option jsstring) :=
  [clarifiedRequest c; currentStrategy c; deepNeed c; bodyLocation c; ctx_metaphor c;
   insight (metaPositionData c); firstStep c].

(** The stages whose case tests one of these facts. *)
Definition factStages : list MPTStage :=
  [clarify_request; explore_strategy; find_need; bodywork; metaphor; meta_position;
   plan_actions].

Definition noFacts : list (option jsstring) := [None; None; None; None; None; None; None].

(** ** The name and the history

    The name a state holds is the one the extractor finds in the history of
    its session. *)
Definition nameFrom `{JsRuntime} (history : list Message) (s : SessionState) : Prop :=
  clientName (context s) = None \/ clientName (context s) = extractClientName history.

Definition nameInv `{JsRuntime} (σ : Store) : Prop :=
  forall id st, sessionStates σ !! id = Some st -> nameFrom (historyOf σ id) st.

(** ** Sample inputs *)

(** A context in which every target fact is known. *)
Definition busyContext : TherapyContext :=
  {| clientName := Some (js "Анна");
     currentGoal := Some (js "цель");
     originalRequest := Some (js "я всё время откладываю диплом");
     clarifiedRequest := Some (js "хочу писать по часу в день");
     currentStrategy := Some (js "жду вдохновения");
     strategyIntention := Some (js "беречь силы");
     deepNeed := Some (js "спокойствие");
     bodyLocation := Some (js "грудь");
     ctx_metaphor := Some (js "река");
     energyLevel := Some 7;
     newActions := [js "писать утром"];
     firstStep := Some (js "открыть файл");
     homework := None;
     stageData := [];
     requestClarification := requestClarification initialContext;
     bodyworkData := bodyworkData initialContext;
     metaphorData := metaphorData initialContext;
     metaPositionData :=
       {| viewOfSelf := None; viewOfLife := None; viewOfStrategy := None;
          insight := Some (js "я могу начать"); messageFromImage := None |};
     integrationData := integrationData initialContext |}.

(** A session with a rating and every flag set, at a given stage, response
    count and context. *)
Definition stateAt (stage : MPTStage) (count : nat) (c : TherapyContext) : SessionState :=
  {| currentStage := stage;
     stageResponseCount := count;
     currentQuestionIndex := 0;
     stageHistory := take (stageIndex stage) MPT_STAGE_ORDER;
     context := c;
     requestType := Some procrastination;
     importanceRating := Some 9;
     lastClientResponse := js "да";
     clientSaysIDontKnow := false;
     movementOffered := true;
     integrationComplete := true;
     sessionStarted := true;
     sessionComplete := false |}.

(** A session that stalls: no fact was ever extracted, no flag was set. *)
Definition stalledAt (stage : MPTStage) (count : nat) : SessionState :=
  {| currentStage := stage;
     stageResponseCount := count;
     currentQuestionIndex := 0;
     stageHistory := take (stageIndex stage) MPT_STAGE_ORDER;
     context := setOriginalRequest (Some (js "не знаю")) initialContext;
     requestType := Some general;
     importanceRating := None;
     lastClientResponse := js "не знаю";
     clientSaysIDontKnow := true;
     movementOffered := false;
     integrationComplete := false;
     sessionStarted := true;
     sessionComplete := false |}.

(** The first request of the scenario of the specification. *)
Definition thesisBody : ChatBody :=
  {| body_message := JString (js "I keep putting off writing my thesis");
     body_sessionId := JUndefined;
     body_scenarioId := JUndefined |}.

(** The request as [chatRequestSchema] parses it. *)
Definition thesisRequest : ChatRequest :=
  {| message := js "I keep putting off writing my thesis";
     sessionId := None;
     scenarioId := None |}.

Definition uuid1 : jsstring := js "0b2d7c1e-0001".
Definition uuid2 : jsstring := js "0b2d7c1e-0002".

Definition bodyFor (id : jsstring) (text : jsstring) : ChatBody :=
  {| body_message := JString text;
     body_sessionId := JString id;
     body_scenarioId := JUndefined |}.

Definition bodyOf (text : jsstring) : ChatBody :=
  {| body_message := JString text;
     body_sessionId := JUndefined;
     body_scenarioId := JUndefined |}.

(** The store after the first request of the scenario. *)
Definition thesisTurn : request :=
  PostChat uuid1 (Some (js "Расскажи подробнее")) thesisBody.
Definition afterThesis : Store := snd (@handle Basic.runtime thesisTurn emptyStore).

(** Two more turns of the same session: the second one brings a rating. *)
Definition contextTurn : request :=
  PostChat uuid2 None (bodyFor uuid1 (js "уже полгода не могу сесть за работу")).
Definition ratingTurn : request :=
  PostChat uuid2 (Some (js "Хорошо")) (bodyFor uuid1 (js "8 из 10")).

(** A session whose first message introduces the client, and a later message
    that offers another name. *)
Definition afterAnna : Store :=
  snd (@handle Basic.runtime (PostChat uuid1 (Some (js "Здравствуй")) (bodyOf (js "Привет, я Анна")))
               emptyStore).
Definition petyaTurn : request :=
  PostChat uuid2 (Some (js "Хорошо")) (bodyFor uuid1 (js "зови меня Петя")).

(** What the specification says of the extractor, to compare with
    [extractImportanceRating]: the first pattern that matches decides, and
    its number is accepted when it lies in the range. *)
Definition firstMatchingPatternWins `{JsRuntime} (message : jsstring) : option nat :=
  match firstSome (fun p => matchGroup1 p message) importancePatterns with
  | Some g =>
    match parseInt g with
    | Some num => if (1 <=? num)%nat && (num <=? 10)%nat then Some num else None
    | None => None
    end
  | None => None
  end.

(** ** Turns of one session in a row *)

(** The turns of a session with the history each one sees. *)
Definition runTurns `{JsRuntime} (turns : list (list Message * jsstring))
           (s : SessionState) : SessionState :=
  foldl (fun st t => processTurn (fst t) (snd t) st) s turns.

(** The largest number of responses a stage takes: its ceiling, one response
    at [start_session] once the request is on record, two at [finish]. *)
Definition stageBudget (stage : MPTStage) : nat :=
  match turnCeiling stage with
  | Some c => c
  | None =>
    match stage with
    | finish => 2
    | _ => 1
    end
  end.

(** A bound on the turns a session still takes to complete: what is left of
    the budget of its stage and the budgets of the stages after it. *)
Definition turnsLeft (s : SessionState) : nat :=
  Nat.max 1 (stageBudget (currentStage s) - stageResponseCount s)
  + sum_list (map stageBudget (drop (S (stageIndex (currentStage s))) MPT_STAGE_ORDER)).

(** The state [POST /api/chat] would make for a session without one. *)
Definition fallbackState (message : jsstring) : SessionState :=
  setContext (setOriginalRequest (Some message) initialContext) createInitialSessionState.

(** The assistant message a chat request appends, if any. *)
Definition replyMessages (reply : option jsstring) : list Message :=
  match reply with
  | Some text => [{| role := assistant; content := text |}]
  | None => []
  end.

(** Sample turns: thirty-three answers of a client who never knows. *)
Definition dontKnowTurns : list (list Message * jsstring) :=
  replicate 33 ([{| role := user; content := js "не знаю" |}], js "не знаю").

(** ** Reframing into authorship *)

Definition lit (s : string) : regex := RLit (js s).

Definition rseq (rs : list regex) : regex := foldr RSeq REps rs.

(** Alternatives, tried from left to right. *)
Fixpoint ralt (rs : list regex) : regex :=
  match rs with
  | [] => REps
  | [r] => r
  | r :: rs' => RAlt r (ralt rs')
  end.

Definition icase (r : regex) : pattern := {| source := r; ignoreCase := true |}.

(** [pattern.test(s)] for a pattern without the [g] flag. *)
Definition test `{JsRuntime} (p : pattern) (s : jsstring) : bool :=
  negb (isNull (matchGroup1 p s)).

Definition AUTHORSHIP_TRANSFORMATIONS : list (pattern * jsstring) :=
  [
    (*  0  /меня (раздражает|бесит|злит)/i *)
    (icase (rseq [lit "меня "; RGroup1 (ralt [lit "раздражает"; lit "бесит"; lit "злит"])]),
     js "я раздражаюсь на");
    (*  1  /меня обид(ели|ел|ела)/i *)
    (icase (rseq [lit "меня обид"; RGroup1 (ralt [lit "ели"; lit "ел"; lit "ела"])]),
     js "я обиделся, когда");
    (*  2  /он\/она меня (заставляет|вынуждает)/i *)
    (icase (rseq [lit "он/она меня "; RGroup1 (ralt [lit "заставляет"; lit "вынуждает"])]),
     js "я чувствую давление, когда");
    (*  3  /мне не дают/i *)
    (icase (rseq [lit "мне не дают"]),
     js "я не беру");
    (*  4  /меня не понимают/i *)
    (icase (rseq [lit "меня не понимают"]),
     js "я чувствую себя непонятым, когда");
    (*  5  /меня не слышат/i *)
    (icase (rseq [lit "меня не слышат"]),
     js "я чувствую, что меня не слышат, когда");
    (*  6  /меня не ценят/i *)
    (icase (rseq [lit "меня не ценят"]),
     js "я чувствую себя недооценённым, когда");
    (*  7  /меня игнорируют/i *)
    (icase (rseq [lit "меня игнорируют"]),
     js "я чувствую себя игнорируемым, когда");
    (*  8  /меня критикуют/i *)
    (icase (rseq [lit "меня критикуют"]),
     js "я воспринимаю как критику, когда");
    (*  9  /на меня давят/i *)
    (icase (rseq [lit "на меня давят"]),
     js "я чувствую давление, когда");
    (* 10  /мне мешают/i *)
    (icase (rseq [lit "мне мешают"]),
     js "я встречаю препятствие, когда");
    (* 11  /он\/она виноват/i *)
    (icase (rseq [lit "он/она виноват"]),
     js "я чувствую обиду из-за");
    (* 12  /из-за него\/неё/i *)
    (icase (rseq [lit "из-за него/неё"]),
     js "в ситуации с ним/ней я");
    (* 13  /они заставили меня/i *)
    (icase (rseq [lit "они заставили меня"]),
     js "я сделал выбор под влиянием");
    (* 14  /у меня нет выбора/i *)
    (icase (rseq [lit "у меня нет выбора"]),
     js "мне сложно увидеть альтернативы, когда");
    (* 15  /я не могу/i *)
    (icase (rseq [lit "я не могу"]),
     js "мне сложно");
    (* 16  /это невозможно/i *)
    (icase (rseq [lit "это невозможно"]),
     js "мне пока неясно, как");
    (* 17  /живу не своей жизнью/i *)
    (icase (rseq [lit "живу не своей жизнью"]),
     js "я ДЕЛАЮ так, что живу не своей жизнью");
    (* 18  /сижу в клетке/i *)
    (icase (rseq [lit "сижу в клетке"]),
     js "я САЖАЮ себя в клетку");
    (* 19  /он посадил себя/i *)
    (icase (rseq [lit "он посадил себя"]),
     js "я САЖАЮ себя");
    (* 20  /меня заставили/i *)
    (icase (rseq [lit "меня заставили"]),
     js "я ПОЗВОЛИЛ");
    (* 21  /меня вынудили/i *)
    (icase (rseq [lit "меня вынудили"]),
     js "я ВЫБРАЛ под давлением");
    (* 22  /он меня бесит/i *)
    (icase (rseq [lit "он меня бесит"]),
     js "я ЗЛЮСЬ, когда он");
    (* 23  /она меня бесит/i *)
    (icase (rseq [lit "она меня бесит"]),
     js "я ЗЛЮСЬ, когда она");
    (* 24  /меня контролируют/i *)
    (icase (rseq [lit "меня контролируют"]),
     js "я ПОЗВОЛЯЮ себя контролировать");
    (* 25  /меня используют/i *)
    (icase (rseq [lit "меня используют"]),
     js "я ПОЗВОЛЯЮ себя использовать");
    (* 26  /меня не уважают/i *)
    (icase (rseq [lit "меня не уважают"]),
     js "я чувствую неуважение, когда");
    (* 27  /мне не везёт/i *)
    (icase (rseq [lit "мне не везёт"]),
     js "я замечаю неудачи, когда");
    (* 28  /всё против меня/i *)
    (icase (rseq [lit "всё против меня"]),
     js "я встречаю сопротивление, когда");
    (* 29  /у меня забрали/i *)
    (icase (rseq [lit "у меня забрали"]),
     js "я ОТДАЛ");
    (* 30  /меня бросили/i *)
    (icase (rseq [lit "меня бросили"]),
     js "я остался один, когда");
    (* 31  /меня предали/i *)
    (icase (rseq [lit "меня предали"]),
     js "я чувствую предательство, когда");
    (* 32  /он\/она виноват(а)?/i *)
    (icase (rseq [lit "он/она виноват"; ROpt (RGroup1 (lit "а"))]),
     js "я чувствую обиду из-за");
    (* 33  /это его\/её вина/i *)
    (icase (rseq [lit "это его/её вина"]),
     js "в этой ситуации я");
    (* 34  /мне плохо из-за/i *)
    (icase (rseq [lit "мне плохо из-за"]),
     js "я чувствую себя плохо, когда");
    (* 35  /он\/она сделал(а)? мне/i *)
    (icase (rseq [lit "он/она сделал"; ROpt (RGroup1 (lit "а")); lit " мне"]),
     js "в ситуации с ним/ней я чувствую");
    (* 36  /я жертва/i *)
    (icase (rseq [lit "я жертва"]),
     js "я нахожусь в сложной ситуации, где");
    (* 37  /со мной так поступили/i *)
    (icase (rseq [lit "со мной так поступили"]),
     js "в этой ситуации я");
    (* 38  /мне навязали/i *)
    (icase (rseq [lit "мне навязали"]),
     js "я ПРИНЯЛ");
    (* 39  /от меня требуют/i *)
    (icase (rseq [lit "от меня требуют"]),
     js "я чувствую требование, когда");
    (* 40  /меня заставляют/i *)
    (icase (rseq [lit "меня заставляют"]),
     js "я чувствую давление") ].

Definition quote : jsstring := [0x22%N].

(** The sentence [transformToAuthorship] builds around the message and the
    reframing. *)
Definition authorshipSentence (message transform : jsstring) : jsstring :=
  js "Я слышу " ++ quote ++ message ++ quote
  ++ js ". В языке авторства это звучало бы как: " ++ quote ++ transform ++ js "..." ++ quote.

Definition transformToAuthorship `{JsRuntime} (message : jsstring) : option jsstring :=
  firstSome (fun e => if test (fst e) message
                      then Some (authorshipSentence message (snd e))
                      else None)
            AUTHORSHIP_TRANSFORMATIONS.

(** ** The helping question *)

Definition stageSpecificHelpers (stage : MPTStage) : list jsstring :=
  match stage with
  | start_session =>
    [js "А если бы знал, с чего начать — что бы это могло быть?"]
  | collect_context =>
    [js "А если бы мог описать — как бы это выглядело?"]
  | clarify_request =>
    [js "А если бы понимал свой запрос — как бы он звучал?"]
  | explore_strategy =>
    [js "А если бы замечал — что бы ты делал в этой ситуации?"]
  | find_need =>
    [js "А если бы чувствовал — какая потребность могла бы быть за этим?"]
  | bodywork =>
    [js ("А если бы ощущал — где в теле это могло бы находиться? Позволь "
         ++ "себе представить.")]
  | metaphor =>
    [js ("А если бы видел образ — каким бы он мог быть? Пусть придёт "
         ++ "первое, что придёт.")]
  | meta_position =>
    [js "А если бы мог посмотреть глазами образа — что бы ты увидел?"]
  | integration =>
    [js "А если бы чувствовал эту целостность — как бы это переживалось?"]
  | plan_actions =>
    [js "А если бы знал следующий шаг — каким бы он мог быть?"]
  | finish =>
    [js "А если бы мог подвести итог — что бы ты сказал?"]
  end.

Definition defaultHelper : jsstring :=
  js ("А если бы знал — на что бы это знание могло быть похоже? Что "
        ++ "первое приходит на ум?").

Definition getHelpingQuestion (stage : MPTStage) (originalQuestion : jsstring) : jsstring :=
  let helpers := stageSpecificHelpers stage in
  if includes originalQuestion (js "чувству") || includes originalQuestion (js "ощущ") then
    js ("А если бы ты чувствовал — каким бы могло быть это ощущение? "
        ++ "Позволь себе представить.")
  else if includes originalQuestion (js "понима") || includes originalQuestion (js "думаешь")
  then
    js ("А если бы понимал — каким бы могло быть это понимание? Что "
        ++ "первое приходит в голову?")
  else if includes originalQuestion (js "вид") || includes originalQuestion (js "образ")
          || includes originalQuestion (js "метафор") then
    js ("А если бы видел — на что бы это могло быть похоже? Какой образ "
        ++ "мог бы возникнуть?")
  else if includes originalQuestion (js "тел") || includes originalQuestion (js "где") then
    js ("А если бы замечал ощущение — где в теле оно могло бы быть? Может "
        ++ "быть в груди, животе, горле?")
  else
    match helpers with
    | (c :: s) :: _ => c :: s
    | _ => defaultHelper
    end.

(** ** The practice for the end of the session *)

(** An entry of [IMPLEMENTATION_PRACTICES]: its [id], [name] and
    [description]. *)
Record Practice := {
  practice_id : jsstring;
  practice_name : jsstring;
  practice_description : jsstring
}.

Definition IMPLEMENTATION_PRACTICES : list Practice :=
  [{| practice_id := js "morning-connection";
     practice_name := js "Утреннее соединение с образом";
     practice_description :=
       js ("Каждое утро 5 минут вспоминай найденный образ и соединяйся с "
           ++ "ним. Позволь ему наполнить тебя энергией на весь день.") |};
   {| practice_id := js "anchor-word";
     practice_name := js "Слово-якорь";
     practice_description :=
       js ("Выбери одно слово, которое описывает твоё ресурсное "
           ++ "состояние. Произноси его про себя каждый раз, когда "
           ++ "чувствуешь необходимость в поддержке.") |};
   {| practice_id := js "body-check";
     practice_name := js "Телесная проверка";
     practice_description :=
       js ("Три раза в день останавливайся и замечай, что происходит в "
           ++ "теле. Если есть напряжение — позволь телу немного "
           ++ "подвигаться.") |};
   {| practice_id := js "evening-review";
     practice_name := js "Вечерний пересмотр";
     practice_description :=
       js ("Перед сном вспомни моменты дня, когда ты действовал из нового "
           ++ "состояния. Отметь даже маленькие изменения.") |};
   {| practice_id := js "new-action";
     practice_name := js "Одно новое действие в день";
     practice_description :=
       js ("Каждый день делай хотя бы одно маленькое действие из нового "
           ++ "состояния. Фиксируй результаты.") |};
   {| practice_id := js "metaphor-journal";
     practice_name := js "Дневник метафоры";
     practice_description :=
       js ("Записывай, как твой образ-ресурс проявляется в разных "
           ++ "ситуациях. Замечай, когда он рядом.") |};
   {| practice_id := js "breath-anchor";
     practice_name := js "Дыхательный якорь";
     practice_description :=
       js ("Когда нужна поддержка — сделай три глубоких вдоха, "
           ++ "представляя, что вдыхаешь энергию найденного состояния.") |};
   {| practice_id := js "trigger-practice";
     practice_name := js "Работа с триггерами";
     practice_description :=
       js ("Замечай ситуации, которые вызывают старые реакции. В этот "
           ++ "момент вспоминай новое состояние и выбирай новый способ "
           ++ "реагирования.") |}].

(** [IMPLEMENTATION_PRACTICES.find(p => p.id === id)], [None] for undefined. *)
Definition findPractice (id : string) : option Practice :=
  List.find (fun p => eqs (practice_id p) (js id)) IMPLEMENTATION_PRACTICES.

(** A string that is neither null nor empty. *)
Definition truthy (x : option jsstring) : bool :=
  match x with
  | Some (_ :: _) => true
  | _ => false
  end.

Definition selectHomework (context : TherapyContext) : option Practice :=
  if truthy (ctx_metaphor context) || truthy (image (metaphorData context)) then
    findPractice "morning-connection"
  else if truthy (bodyLocation context) || truthy (location (bodyworkData context)) then
    findPractice "body-check"
  else if (0 <? length (newActions context))%nat || truthy (firstStep context) then
    findPractice "new-action"
  else findPractice "breath-anchor".

(** What [selectHomework] reads of the context. *)
Definition homeworkInputs (c : TherapyContext)
  : list (option jsstring) * list jsstring :=
  ([ctx_metaphor c; image (metaphorData c); bodyLocation c; location (bodyworkData c);
    firstStep c],
   newActions c).

(** ** The mode of the bot *)

Inductive BotMode :=
  | therapist
  | educator
  | practice_client
  | supervisor
  | chat.

#[global] Instance BotMode_eq_dec : EqDecision BotMode.
Proof. solve_decision. Defined.

Definition practiceKeywords : list jsstring :=
  map js
  ["хочу попрактиковаться"; "потренироваться"; "давай я буду терапевтом";
   "будь клиентом"; "стань клиентом"; "выступи в роли клиента"; "я терапевт";
   "буду вести сессию"; "практика терапии"; "поиграем в терапию";
   "режим практики"; "режим клиента"; "я хочу практиковать";
   "в роли терапевта"; "ты будешь клиентом"].

Definition supervisorKeywords : list jsstring :=
  map js
  ["разбери сессию"; "проанализируй сессию"; "дай обратную связь";
   "супервизия"; "разбор сессии"; "что я сделал не так"; "оцени мою работу";
   "рекомендации по сессии"; "анализ сессии"; "режим супервизии";
   "проверь мою технику"; "какие ошибки"; "что улучшить"].

Definition educatorKeywords : list jsstring :=
  map js
  ["что такое мпт"; "как работает мпт"; "объясни мпт"; "расскажи про мпт";
   "как понять"; "что значит"; "зачем нужен"; "в чём смысл";
   "как определить"; "какой принцип"; "почему важно"; "как это работает";
   "что за техника"; "когда использовать"; "как правильно"; "в чём разница";
   "научи меня"; "объясни технику"; "теория мпт"; "метод волынского";
   "как ты понимаешь"; "что имеется в виду"; "поясни"].

Definition chatIndicators : list jsstring :=
  map js
  ["?"; "почему ты"; "зачем ты"; "как ты"; "что ты думаешь"; "ты согласен";
   "как считаешь"; "твоё мнение"].

(** [arr.join(sep)] *)
Fixpoint join (sep : jsstring) (arr : list jsstring) : jsstring :=
  match arr with
  | [] => []
  | [x] => x
  | x :: arr' => x ++ sep ++ join sep arr'
  end.

(** [arr.slice(-n)]: the last [n] elements, all of them when there are fewer. *)
Definition lastElements {A} (n : nat) (arr : list A) : list A :=
  drop (length arr - n) arr.

(** [isQuestion] is computed and not read: the mode [chat] is never
    returned. *)
Definition detectBotMode `{JsRuntime} (message : jsstring)
           (conversationHistory : list Message) : BotMode :=
  let lowerMessage := toLowerCase message in
  let lastMessages :=
    join (js " ")
         (map (fun m => toLowerCase (content m)) (lastElements 4 conversationHistory)) in
  let fullContext := lowerMessage ++ js " " ++ lastMessages in
  if existsb (includes fullContext) practiceKeywords then practice_client
  else if existsb (includes fullContext) supervisorKeywords then supervisor
  else if existsb (includes lowerMessage) educatorKeywords then educator
  else
    let isQuestion :=
      existsb (includes lowerMessage) chatIndicators && (length lowerMessage <? 100)%nat in
    therapist.

Definition exitCommands : list jsstring :=
  map js
  ["выйти из режима"; "завершить практику"; "обычный режим"; "режим терапевта"].

(** The mode of a session for one request of [/api/chat]: [stored] is the
    entry of [sessionModes] for the session; the result is the active mode
    and the entry after the request. *)
Definition trackMode `{JsRuntime} (message : jsstring) (conversationHistory : list Message)
           (stored : option BotMode) : BotMode * option BotMode :=
  let detectedMode := detectBotMode message conversationHistory in
  let currentMode := default therapist stored in
  let (activeMode, stored) :=
    if negb (bool_decide (detectedMode = therapist)) && negb (bool_decide (detectedMode = chat))
    then (detectedMode, Some detectedMode)
    else (currentMode, stored) in
  let lowerMessage := toLowerCase message in
  if existsb (includes lowerMessage) exitCommands then (therapist, Some therapist)
  else (activeMode, stored).

(** ** The filter of reasoning blocks *)

Definition thinkOpen : jsstring := js "<think>".
Definition thinkClose : jsstring := js "</think>".

(** The loop of [filterThinkTags] over the rest of a chunk.  [skip] counts
    the characters of a tag that are still to be passed: [i += 7] and
    [i += 8] are the first character of the tag and a skip of 6 and 7.  The
    result is the text kept and [insideThinkBlock] at the end of the chunk. *)
Fixpoint filterThinkFrom (skip : nat) (insideThinkBlock : bool) (content : jsstring)
  : jsstring * bool :=
  match content with
  | [] => ([], insideThinkBlock)
  | c :: rest =>
    match skip with
    | S k => filterThinkFrom k insideThinkBlock rest
    | O =>
      if negb insideThinkBlock then
        if startsWith thinkOpen content then filterThinkFrom 6 true rest
        else
          let (result, inside) := filterThinkFrom 0 false rest in
          (c :: result, inside)
      else
        if startsWith thinkClose content then filterThinkFrom 7 false rest
        else filterThinkFrom 0 true rest
    end
  end.

(** [filterThinkTags(content)] with the value of [insideThinkBlock] the
    closure holds when the chunk arrives. *)
Definition filterThinkTags (insideThinkBlock : bool) (content : jsstring) : jsstring * bool :=
  filterThinkFrom 0 insideThinkBlock content.

(** The character [<]. *)
Definition lessThan : N := 0x3C%N.

(** ** Texts that a literal pattern matches *)

(** The same text up to the case folding of the pattern. *)
Definition sameText (canon : N -> N) (l w : jsstring) : Prop :=
  Forall2 (fun c ch => canon c = canon ch) l w.

(** The continuation at the end of a pattern: the match is found. *)
Definition matched : cont := fun _ _ cap => Some cap.

(** ** More sample inputs *)

(** The session of the scenario after its rating turn. *)
Definition afterRating : Store :=
  @serve Basic.runtime [thesisTurn; contextTurn; ratingTurn] emptyStore.

(** The same session answered thirty-two times by a client who never knows. *)
Definition dontKnowTurn : request := PostChat uuid2 None (bodyFor uuid1 (js "не знаю")).

(** The session of the scenario three responses into [clarify_request], one
    short of the ceiling of that stage. *)
Definition nearCeiling : Store :=
  @serve Basic.runtime
         [thesisTurn; contextTurn; ratingTurn; dontKnowTurn; dontKnowTurn; dontKnowTurn]
         emptyStore.
Definition completedStore : Store :=
  @serve Basic.runtime (thesisTurn :: replicate 32 dontKnowTurn) emptyStore.

(** A conversation in which the client asked for practice three messages
    ago. *)
Definition practiceHistory : list Message :=
  [{| role := user; content := js "Хочу попрактиковаться в роли терапевта" |};
   {| role := assistant; content := js "Хорошо, я клиент — ты МПТ терапевт, начинай!" |};
   {| role := user; content := js "выйти из режима" |};
   {| role := user; content := js "расскажи о себе" |}].



(** * Properties *)

(** ** The stage order *)

Lemma getNextStage_index (s s' : MPTStage) :
  getNextStage s = Some s' -> stageIndex s' = S (stageIndex s).
Proof.
  destruct s; vm_compute; intros E; inversion E; subst; reflexivity.
Qed.

Lemma getNextStage_finish (s : MPTStage) : getNextStage s = None <-> s = finish.
Proof.
  split; [| intros ->; reflexivity].
  destruct s; vm_compute; intros E; first [reflexivity | discriminate E].
Qed.

Lemma stageIndex_inj (s s' : MPTStage) : stageIndex s = stageIndex s' -> s = s'.
Proof.
  destruct s, s'; vm_compute; intros E; first [reflexivity | discriminate E].
Qed.

Lemma next_of_index (s s' : MPTStage) :
  stageIndex s' = S (stageIndex s) -> getNextStage s = Some s'.
Proof.
  destruct s, s'; vm_compute; intros E; first [reflexivity | discriminate E].
Qed.

Lemma transition_stage (s : SessionState) :
  currentStage (transitionToNextStage s) = currentStage s \/
  getNextStage (currentStage s) = Some (currentStage (transitionToNextStage s)).
Proof.
  unfold transitionToNextStage.
  destruct (getNextStage (currentStage s)) eqn:E; cbn; auto.
Qed.

Section Turn.
Context `{JsRuntime}.

Lemma applyExtractors_stage history message s :
  currentStage (applyExtractors history message s) = currentStage s.
Proof.
  unfold applyExtractors.
  destruct (extractClientName history) as [[|c n]|], (extractImportanceRating message);
    reflexivity.
Qed.

Lemma applyExtractors_count history message s :
  stageResponseCount (applyExtractors history message s) = S (stageResponseCount s).
Proof.
  unfold applyExtractors.
  destruct (extractClientName history) as [[|c n]|], (extractImportanceRating message);
    reflexivity.
Qed.

Lemma processTurn_stage history message s :
  currentStage (processTurn history message s) = currentStage s \/
  getNextStage (currentStage s) = Some (currentStage (processTurn history message s)).
Proof.
  unfold processTurn.
  destruct (shouldTransitionToNextStage _).
  - pose proof (transition_stage (applyExtractors history message s)) as T.
    rewrite applyExtractors_stage in T. exact T.
  - left. apply applyExtractors_stage.
Qed.

Lemma processTurn_index history message s :
  stageIndex (currentStage (processTurn history message s)) = stageIndex (currentStage s) \/
  stageIndex (currentStage (processTurn history message s)) = S (stageIndex (currentStage s)).
Proof.
  destruct (processTurn_stage history message s) as [-> | E]; [by left | right].
  by apply getNextStage_index.
Qed.
End Turn.

(** ** What a request does to the store *)

Lemma historyOf_pushTo (id id' : jsstring) (msg : Message) (σ : Store) :
  exists t, historyOf (pushTo id msg σ) id' = historyOf σ id' ++ t.
Proof.
  unfold historyOf, pushTo; cbn.
  destruct (decide (id = id')) as [-> | Hne].
  - rewrite lookup_alter_eq.
    destruct (sessions σ !! id') as [s |]; cbn; [by exists [msg] | by exists []].
  - rewrite lookup_alter_ne by done. exists []. by rewrite app_nil_r.
Qed.

Lemma existingSession_Some (σ : Store) (sid : option jsstring) (id : jsstring) :
  existingSession σ sid = Some id -> is_Some (sessions σ !! id).
Proof.
  unfold existingSession.
  destruct sid as [[| c s] |]; try discriminate.
  case_bool_decide; [| discriminate].
  by intros [= <-].
Qed.

Section Requests.
Context `{JsRuntime}.

(** The store after a valid chat request, step by step. *)
Lemma postChat_valid uuid reply body req σ :
  chatRequestSchema body = Some req ->
  snd (postChat uuid reply body σ) =
  let σ1 := turn (fst (openSession uuid req σ)) (message req) (snd (openSession uuid req σ)) in
  match reply with
  | Some text =>
    pushTo (fst (openSession uuid req σ)) {| role := assistant; content := text |} σ1
  | None => σ1
  end.
Proof.
  intros E. unfold postChat. rewrite E.
  destruct (openSession uuid req σ) as [id σ1]; cbn.
  by destruct reply.
Qed.

Lemma postChat_invalid uuid reply body σ :
  chatRequestSchema body = None -> postChat uuid reply body σ = (InvalidRequest, σ).
Proof.
  intros E. unfold postChat. by rewrite E.
Qed.

Lemma postChat_states uuid reply body req σ :
  chatRequestSchema body = Some req ->
  sessionStates (snd (postChat uuid reply body σ)) =
  sessionStates (turn (fst (openSession uuid req σ)) (message req)
                      (snd (openSession uuid req σ))).
Proof.
  intros E. rewrite (postChat_valid _ _ _ _ _ E); cbn.
  by destruct reply.
Qed.

(** A session that has a state keeps it or takes one turn. *)
Lemma handle_known r σ id st :
  freshUuid r σ ->
  sessionStates σ !! id = Some st ->
  sessionStates (snd (handle r σ)) !! id = Some st \/
  exists history message,
    sessionStates (snd (handle r σ)) !! id = Some (processTurn history message st).
Proof.
  intros [_ Hfresh] Hst.
  destruct r as [uuid reply body | uuid]; cbn in *.
  - destruct (chatRequestSchema body) as [req |] eqn:E.
    + rewrite (postChat_states _ _ _ _ _ E).
      unfold openSession.
      destruct (existingSession σ (sessionId req)) as [id0 |] eqn:Ex; cbn.
      * destruct (decide (id0 = id)) as [-> | Hne].
        -- right. eexists _, _. rewrite lookup_insert_eq.
           unfold stateOf; cbn. by rewrite Hst.
        -- left. by rewrite lookup_insert_ne.
      * left. assert (uuid <> id) by congruence.
        by rewrite !lookup_insert_ne.
    + rewrite postChat_invalid by done. by left.
  - left. assert (uuid <> id) by congruence.
    by rewrite lookup_insert_ne.
Qed.

(** The state of a session that a request creates. *)
Lemma handle_created r σ id st' :
  sessionStates σ !! id = None ->
  sessionStates (snd (handle r σ)) !! id = Some st' ->
  st' = createInitialSessionState \/
  exists history message,
    st' = processTurn history message (newSessionState message) \/
    st' = processTurn history message
            (setContext (setOriginalRequest (Some message) initialContext)
                        createInitialSessionState).
Proof.
  intros Hnone.
  destruct r as [uuid reply body | uuid]; cbn.
  - destruct (chatRequestSchema body) as [req |] eqn:E.
    + rewrite (postChat_states _ _ _ _ _ E).
      unfold openSession.
      destruct (existingSession σ (sessionId req)) as [id0 |] eqn:Ex; cbn.
      * destruct (decide (id0 = id)) as [-> | Hne].
        -- rewrite lookup_insert_eq. intros [= <-]. right.
           eexists _, _. right. unfold stateOf; cbn. by rewrite Hnone.
        -- rewrite lookup_insert_ne by done. congruence.
      * destruct (decide (uuid = id)) as [-> | Hne].
        -- rewrite lookup_insert_eq. intros [= <-]. right.
           eexists _, _. left. unfold stateOf; cbn. by rewrite lookup_insert_eq.
        -- rewrite !lookup_insert_ne by done. congruence.
    + rewrite postChat_invalid by done. cbn. congruence.
  - destruct (decide (uuid = id)) as [-> | Hne].
    + rewrite lookup_insert_eq. intros [= <-]. by left.
    + rewrite lookup_insert_ne by done. congruence.
Qed.

Lemma allFresh_app rs rs' σ :
  allFresh (rs ++ rs') σ <-> allFresh rs σ /\ allFresh rs' (serve rs σ).
Proof.
  revert σ. induction rs as [| r rs IH]; intros σ; cbn.
  - tauto.
  - rewrite IH. tauto.
Qed.

Lemma serve_app rs rs' σ : serve (rs ++ rs') σ = serve rs' (serve rs σ).
Proof.
  revert σ. induction rs as [| r rs IH]; intros σ; cbn; [done | apply IH].
Qed.

Lemma reachable_serve rs σ : reachable σ -> allFresh rs σ -> reachable (serve rs σ).
Proof.
  revert σ. induction rs as [| r rs IH]; intros σ Hr Hf; cbn in *; [done |].
  destruct Hf as [Hf Hfs]. apply IH; [| done]. by constructor.
Qed.

Lemma newSessionState_stage message :
  currentStage (newSessionState message) = currentStage createInitialSessionState.
Proof. reflexivity. Qed.

(** One request leaves the observed stage of a session where it is or moves
    it one step on; this holds for the request that creates the session too. *)
Lemma handle_observed r σ id :
  freshUuid r σ ->
  stageIndex (observedStage (snd (handle r σ)) id) = stageIndex (observedStage σ id) \/
  stageIndex (observedStage (snd (handle r σ)) id) = S (stageIndex (observedStage σ id)).
Proof.
  intros Hf. unfold observedStage.
  destruct (sessionStates σ !! id) as [st |] eqn:Hst.
  - destruct (handle_known r σ id st Hf Hst) as [-> | (history & message & ->)].
    + by left.
    + apply processTurn_index.
  - destruct (sessionStates (snd (handle r σ)) !! id) as [st' |] eqn:Hst'; [| by left].
    destruct (handle_created r σ id st' Hst Hst')
      as [-> | (history & message & [-> | ->])].
    + by left.
    + rewrite <- (newSessionState_stage message). apply processTurn_index.
    + apply (processTurn_index history message
               (setContext (setOriginalRequest (Some message) initialContext)
                           createInitialSessionState)).
Qed.

(** Over a sequence of requests the stage of a session does not go back. *)
Lemma serve_index rs σ id :
  allFresh rs σ ->
  stageIndex (observedStage σ id) <= stageIndex (observedStage (serve rs σ) id).
Proof.
  revert σ. induction rs as [| r rs IH]; intros σ Hf; cbn in *; [done |].
  destruct Hf as [Hf Hfs].
  specialize (IH _ Hfs).
  destruct (handle_observed r σ id Hf) as [E | E]; lia.
Qed.
End Requests.

(** ** The claims on the stage machine *)

(** C1.  Over any sequence of requests the stage of a session is
    non-decreasing in the order of [MPT_STAGE_ORDER], and one more request
    leaves it where it is or moves it to the immediate successor: the stage
    never moves backward and never skips a step. *)
Theorem stage_monotone `{JsRuntime} (rs : list request) (r : request) (σ : Store)
        (id : jsstring) :
  allFresh (rs ++ [r]) σ ->
  let before := observedStage (serve rs σ) id in
  let after := observedStage (serve (rs ++ [r]) σ) id in
  stageIndex (observedStage σ id) <= stageIndex before /\
  (after = before \/ getNextStage before = Some after) /\
  (stageIndex after = stageIndex before \/ stageIndex after = S (stageIndex before)).
Proof.
  intros Hf before after.
  apply allFresh_app in Hf as [Hrs [Hr _]].
  split; [by apply serve_index |].
  assert (stageIndex after = stageIndex before \/ stageIndex after = S (stageIndex before))
    as Hstep.
  { subst before after. rewrite serve_app. by apply handle_observed. }
  split; [| done].
  destruct Hstep as [E | E]; [left; by apply stageIndex_inj | right].
  by apply next_of_index.
Qed.

(** C2.  Below the minimum number of responses of the current stage the
    evaluator answers false, whatever the context, the rating and the flags
    hold. *)
Theorem below_minimum_no_transition (s : SessionState) :
  stageResponseCount s < minResponses (MPT_STAGE_CONFIG (currentStage s)) ->
  shouldTransitionToNextStage s = false.
Proof.
  intros Hlt. unfold shouldTransitionToNextStage.
  destruct (Nat.ltb_spec (stageResponseCount s)
                         (minResponses (MPT_STAGE_CONFIG (currentStage s)))); [done | lia].
Qed.

Lemma ceiling_above_minimum (stage : MPTStage) (c : nat) :
  turnCeiling stage = Some c -> minResponses (MPT_STAGE_CONFIG stage) <= c.
Proof.
  destruct stage; cbn; intros E; inversion E; lia.
Qed.

Lemma ceiling_has_next (stage : MPTStage) (c : nat) :
  turnCeiling stage = Some c -> exists next, getNextStage stage = Some next.
Proof.
  destruct stage; cbn; intros E; inversion E; eexists; vm_compute; reflexivity.
Qed.

Lemma at_ceiling (s : SessionState) (c : nat) :
  turnCeiling (currentStage s) = Some c ->
  c <= stageResponseCount s ->
  shouldTransitionToNextStage s = true.
Proof.
  intros Hc Hle.
  pose proof (ceiling_above_minimum _ _ Hc) as Hmin.
  unfold shouldTransitionToNextStage.
  destruct (Nat.ltb_spec (stageResponseCount s)
                         (minResponses (MPT_STAGE_CONFIG (currentStage s)))); [lia |].
  destruct (currentStage s); cbn in Hc; inversion Hc; subst c;
    apply orb_true_iff; right; apply Nat.leb_le; lia.
Qed.

(** C3.  At a stage with a turn-count ceiling, a response count that has
    reached the ceiling makes the evaluator answer true whatever the target
    fact and the integration flag hold, and the turn that brings the count to
    the ceiling moves the session to the next stage with the count at zero. *)
Theorem ceiling_forces_transition `{JsRuntime} (s : SessionState) (c : nat) :
  turnCeiling (currentStage s) = Some c ->
  c <= stageResponseCount s ->
  shouldTransitionToNextStage s = true /\
  forall history message s0,
    currentStage s0 = currentStage s ->
    S (stageResponseCount s0) = stageResponseCount s ->
    getNextStage (currentStage s0) = Some (currentStage (processTurn history message s0)) /\
    stageResponseCount (processTurn history message s0) = 0.
Proof.
  intros Hc Hle. split; [by eapply at_ceiling |].
  intros history message s0 Hstage Hcount.
  unfold processTurn.
  rewrite (at_ceiling (applyExtractors history message s0) c).
  - unfold transitionToNextStage. rewrite applyExtractors_stage.
    destruct (ceiling_has_next (currentStage s0) c) as [next Hn]; [congruence |].
    by rewrite Hn.
  - rewrite applyExtractors_stage. congruence.
  - rewrite applyExtractors_count. lia.
Qed.

(** C4, as the code has it.  At [finish] the evaluator answers true exactly
    from the second response on; the minimum of the registry (one response)
    is not enough. *)
Theorem finish_needs_two_responses (s : SessionState) :
  currentStage s = finish ->
  shouldTransitionToNextStage s = (2 <=? stageResponseCount s)%nat.
Proof.
  intros E. unfold shouldTransitionToNextStage. rewrite E; cbn.
  destruct (stageResponseCount s) as [| [| n]]; reflexivity.
Qed.

(** C5.  The transition action at [finish] sets [sessionComplete] and changes
    nothing else: the stage stays [finish], the history gets no entry, the
    counter is not reset. *)
Theorem transition_at_finish (s : SessionState) :
  currentStage s = finish ->
  transitionToNextStage s =
  {| currentStage := finish;
     stageResponseCount := stageResponseCount s;
     currentQuestionIndex := currentQuestionIndex s;
     stageHistory := stageHistory s;
     context := context s;
     requestType := requestType s;
     importanceRating := importanceRating s;
     lastClientResponse := lastClientResponse s;
     clientSaysIDontKnow := clientSaysIDontKnow s;
     movementOffered := movementOffered s;
     integrationComplete := integrationComplete s;
     sessionStarted := sessionStarted s;
     sessionComplete := true |}.
Proof.
  intros E. unfold transitionToNextStage. rewrite E. reflexivity.
Qed.

(** ** Loops that return at the first success *)

Lemma firstSome_app {A B} (f : A -> option B) (l t : list A) (y : B) :
  firstSome f l = Some y -> firstSome f (l ++ t) = Some y.
Proof.
  induction l as [| x l IH]; cbn; [discriminate |].
  destruct (f x); [done | apply IH].
Qed.

Lemma firstSome_Some {A B} (f : A -> option B) (l : list A) (y : B) :
  firstSome f l = Some y ->
  exists before x after,
    l = before ++ x :: after /\ f x = Some y /\ Forall (fun z => f z = None) before.
Proof.
  induction l as [| x l IH]; cbn; [discriminate |].
  destruct (f x) as [y' |] eqn:E.
  - intros [= ->]. exists [], x, l. by repeat split.
  - intros Hl. destruct (IH Hl) as (before & x' & after & -> & Hx' & Hb).
    exists (x :: before), x', after. repeat split; [done |]. by constructor.
Qed.

Lemma firstSome_None {A B} (f : A -> option B) (l : list A) :
  firstSome f l = None -> Forall (fun z => f z = None) l.
Proof.
  induction l as [| x l IH]; cbn; [constructor |].
  destruct (f x) eqn:E; [discriminate |].
  intros Hl. constructor; [done | by apply IH].
Qed.

(** ** The importance rating *)

Section Rating.
Context `{JsRuntime}.

Lemma ratingByPattern_Some message p n :
  ratingByPattern message p = Some n ->
  capturedNumber message p = Some n /\ 1 <= n <= 10.
Proof.
  unfold ratingByPattern.
  destruct (capturedNumber message p) as [num |]; [| discriminate].
  destruct (Nat.leb_spec 1 num), (Nat.leb_spec num 10); cbn; try discriminate.
  intros [= <-]. split; [done | lia].
Qed.

Lemma ratingByPattern_None message p m :
  ratingByPattern message p = None ->
  capturedNumber message p = Some m -> m < 1 \/ 10 < m.
Proof.
  unfold ratingByPattern. intros Hr Hm. rewrite Hm in Hr.
  destruct (Nat.leb_spec 1 m), (Nat.leb_spec m 10); cbn in Hr; try discriminate; lia.
Qed.
End Rating.

(** C7, as the code has it.  The rating is null or an integer from 1 to 10.
    The patterns are tried in their fixed order and the first pattern whose
    captured number lies in the range gives the result: a pattern that
    matches with a number out of the range is passed over, and null is
    returned only when no pattern captures a number in the range. *)
Theorem importance_rating_range `{JsRuntime} (message : jsstring) :
  match extractImportanceRating message with
  | Some n =>
    1 <= n <= 10 /\
    exists before p after,
      importancePatterns = before ++ p :: after /\
      capturedNumber message p = Some n /\
      Forall (fun q => forall m, capturedNumber message q = Some m -> m < 1 \/ 10 < m) before
  | None =>
    Forall (fun q => forall m, capturedNumber message q = Some m -> m < 1 \/ 10 < m)
           importancePatterns
  end.
Proof.
  unfold extractImportanceRating.
  destruct (firstSome (ratingByPattern message) importancePatterns) as [n |] eqn:E.
  - apply firstSome_Some in E as (before & p & after & Hl & Hp & Hb).
    apply ratingByPattern_Some in Hp as [Hp Hn].
    split; [done |]. exists before, p, after. repeat split; [done | done |].
    eapply Forall_impl; [exact Hb |].
    intros q Hq m. by apply ratingByPattern_None.
  - apply firstSome_None in E.
    eapply Forall_impl; [exact E |].
    intros q Hq m. by apply ratingByPattern_None.
Qed.

(** ** The client name *)

Lemma transition_context (s : SessionState) :
  context (transitionToNextStage s) = context s.
Proof.
  unfold transitionToNextStage. by destruct (getNextStage (currentStage s)).
Qed.

Section Name.
Context `{JsRuntime}.

Lemma extractClientName_app history t n :
  extractClientName history = Some n -> extractClientName (history ++ t) = Some n.
Proof. apply firstSome_app. Qed.

Lemma processTurn_context history message s :
  context (processTurn history message s) = context (applyExtractors history message s).
Proof.
  unfold processTurn.
  destruct (shouldTransitionToNextStage _); [apply transition_context | done].
Qed.

Lemma applyExtractors_clientName history message s :
  clientName (context (applyExtractors history message s)) =
  match extractClientName history with
  | Some (c :: n) => Some (c :: n)
  | _ => clientName (context s)
  end.
Proof.
  unfold applyExtractors.
  destruct (extractClientName history) as [[| c n] |], (extractImportanceRating message);
    reflexivity.
Qed.

Lemma nameFrom_app history t s : nameFrom history s -> nameFrom (history ++ t) s.
Proof.
  intros [Hn | Hn]; [by left |].
  destruct (extractClientName history) as [n |] eqn:E; [| by left].
  right. by rewrite (extractClientName_app _ t _ E).
Qed.

Lemma processTurn_nameFrom history t message s :
  nameFrom history s ->
  nameFrom (history ++ t) (processTurn (history ++ t) message s) /\
  forall n, clientName (context s) = Some n ->
            clientName (context (processTurn (history ++ t) message s)) = Some n.
Proof.
  intros Hs. apply (nameFrom_app _ t) in Hs.
  unfold nameFrom in *.
  rewrite processTurn_context, applyExtractors_clientName.
  destruct (extractClientName (history ++ t)) as [[| c n'] |] eqn:E.
  - split; [| done]. destruct Hs as [-> | ->]; auto.
  - split; [by right |]. intros n Hn.
    destruct Hs as [Hs | Hs]; congruence.
  - split; [| done]. destruct Hs as [-> | ->]; auto.
Qed.

Lemma nameInv_insert σ uuid st0 :
  nameInv σ ->
  clientName (context st0) = None ->
  nameInv {| sessions := <[uuid := {| messages := [] |}]> (sessions σ);
             sessionStates := <[uuid := st0]> (sessionStates σ) |}.
Proof.
  intros Hinv Hnone id st; cbn.
  destruct (decide (uuid = id)) as [-> | Hne].
  - rewrite lookup_insert_eq. intros [= <-]. by left.
  - rewrite lookup_insert_ne by done. intros Hst.
    unfold historyOf; cbn. rewrite lookup_insert_ne by done.
    by apply Hinv.
Qed.

Lemma nameInv_pushTo σ id msg : nameInv σ -> nameInv (pushTo id msg σ).
Proof.
  intros Hinv id' st Hst.
  destruct (historyOf_pushTo id id' msg σ) as [t ->].
  apply nameFrom_app. by apply Hinv.
Qed.

Lemma stateOf_nameFrom σ id message :
  nameInv σ -> nameFrom (historyOf σ id) (stateOf σ id message).
Proof.
  intros Hinv. unfold stateOf.
  destruct (sessionStates σ !! id) as [st |] eqn:E; [by apply Hinv | by left].
Qed.

Lemma turn_nameInv σ id message :
  nameInv σ ->
  nameInv (turn id message σ) /\
  forall id' st n,
    sessionStates σ !! id' = Some st ->
    clientName (context st) = Some n ->
    exists st', sessionStates (turn id message σ) !! id' = Some st' /\
                clientName (context st') = Some n.
Proof.
  intros Hinv. unfold turn.
  set (um := {| role := user; content := message |}).
  destruct (historyOf_pushTo id id um σ) as [t Ht].
  pose proof (stateOf_nameFrom σ id message Hinv) as Hs.
  assert (stateOf (pushTo id um σ) id message = stateOf σ id message) as -> by done.
  rewrite Ht.
  destruct (processTurn_nameFrom _ t message _ Hs) as [Hfrom Hkeep].
  split.
  - intros id' st; cbn.
    destruct (decide (id = id')) as [<- | Hne].
    + rewrite lookup_insert_eq. intros [= <-].
      unfold historyOf in *; cbn in *. by rewrite Ht.
    + rewrite lookup_insert_ne by done. intros Hst.
      by apply (nameInv_pushTo σ id um Hinv).
  - intros id' st n Hst Hn; cbn.
    destruct (decide (id = id')) as [<- | Hne].
    + rewrite lookup_insert_eq. eexists; split; [done |].
      apply Hkeep. unfold stateOf. by rewrite Hst.
    + rewrite lookup_insert_ne by done. by exists st.
Qed.

Lemma handle_name r σ :
  nameInv σ ->
  freshUuid r σ ->
  nameInv (snd (handle r σ)) /\
  forall id st n,
    sessionStates σ !! id = Some st ->
    clientName (context st) = Some n ->
    exists st', sessionStates (snd (handle r σ)) !! id = Some st' /\
                clientName (context st') = Some n.
Proof.
  intros Hinv [_ Hfresh].
  destruct r as [uuid reply body | uuid]; cbn in *.
  - destruct (chatRequestSchema body) as [req |] eqn:E.
    + rewrite (postChat_valid _ _ _ _ _ E); cbn.
      set (o := openSession uuid req σ).
      assert (nameInv (snd o) /\
              forall id st, sessionStates σ !! id = Some st ->
                            sessionStates (snd o) !! id = Some st) as [Hinv1 Hkeep1].
      { subst o. unfold openSession.
        destruct (existingSession σ (sessionId req)); cbn; [done |].
        split; [by apply nameInv_insert |].
        intros id st Hst. assert (uuid <> id) by congruence.
        by rewrite lookup_insert_ne. }
      destruct (turn_nameInv (snd o) (fst o) (message req) Hinv1) as [Hinv2 Hkeep2].
      split.
      * destruct reply; [by apply nameInv_pushTo | done].
      * intros id st n Hst Hn.
        destruct (Hkeep2 id st n (Hkeep1 _ _ Hst) Hn) as (st' & Hst' & Hn').
        exists st'. by destruct reply.
    + rewrite postChat_invalid by done; cbn.
      split; [done |]. intros id st n Hst Hn. by exists st.
  - split; [by apply nameInv_insert |].
    intros id st n Hst Hn. exists st. split; [| done].
    assert (uuid <> id) by congruence. by rewrite lookup_insert_ne.
Qed.

Lemma reachable_nameInv σ : reachable σ -> nameInv σ.
Proof.
  induction 1 as [| r σ Hr IH Hf].
  - intros id st. cbn. by rewrite lookup_empty.
  - by apply handle_name.
Qed.
End Name.

(** C6.  In any store the server can reach, a session whose state holds a
    client name holds the same name after every later sequence of requests:
    the extractor run over the longer history gives the name it gave before. *)
Theorem clientName_write_once `{JsRuntime} (σ : Store) (rs : list request)
        (id : jsstring) (st : SessionState) (n : jsstring) :
  reachable σ ->
  allFresh rs σ ->
  sessionStates σ !! id = Some st ->
  clientName (context st) = Some n ->
  exists st', sessionStates (serve rs σ) !! id = Some st' /\
              clientName (context st') = Some n.
Proof.
  intros Hr. apply reachable_nameInv in Hr.
  revert σ st Hr. induction rs as [| r rs IH]; intros σ st Hinv Hf Hst Hn; cbn in *.
  - by exists st.
  - destruct Hf as [Hf Hfs].
    destruct (handle_name r σ Hinv Hf) as [Hinv' Hkeep].
    destruct (Hkeep id st n Hst Hn) as (st1 & Hst1 & Hn1).
    by apply (IH _ st1).
Qed.

(** ** Request validation *)




Section Processed.
Context `{JsRuntime}.




End Processed.


(** ** The first turn of a session *)

Section FirstTurn.
Context `{JsRuntime}.

Lemma first_processTurn history message :
  let st := processTurn history message (newSessionState message) in
  requestType st = Some (detectRequestType message) /\
  currentStage st = collect_context /\
  stageResponseCount st = 0 /\
  stageHistory st = [start_session].
Proof.
  unfold processTurn, applyExtractors, newSessionState.
  generalize (detectRequestType message) (detectClientSaysIDontKnow message).
  intros type idk.
  destruct (extractClientName history) as [[| c n] |], (extractImportanceRating message);
    cbn; repeat split; reflexivity.
Qed.
End FirstTurn.

(** C9, as the code has it.  The first message of a conversation creates the
    session, pins the category the classifier gives for the message, and is
    at once the one response that [start_session] asks for: the request is on
    record, so the same turn moves the session to [collect_context] and
    resets the response count to zero. *)
Theorem first_turn_of_new_session `{JsRuntime} (uuid : jsstring) (reply : option jsstring)
        (body : ChatBody) (req : ChatRequest) (σ : Store) :
  chatRequestSchema body = Some req ->
  existingSession σ (sessionId req) = None ->
  exists st,
    sessionStates (snd (postChat uuid reply body σ)) !! uuid = Some st /\
    requestType st = Some (detectRequestType (message req)) /\
    currentStage st = collect_context /\
    stageResponseCount st = 0 /\
    stageHistory st = [start_session].
Proof.
  intros E Hnew.
  rewrite (postChat_states _ _ _ _ _ E).
  unfold openSession. rewrite Hnew.
  unfold turn, stateOf, pushTo. cbn [fst snd sessionStates].
  rewrite !lookup_insert_eq. eexists; split; [reflexivity |].
  apply first_processTurn.
Qed.

(** ** The facts that are never assigned *)

Lemma fact_stage_transition (s : SessionState) (c : nat) :
  unassignedFacts (context s) = noFacts ->
  In (currentStage s) factStages ->
  turnCeiling (currentStage s) = Some c ->
  shouldTransitionToNextStage s = (c <=? stageResponseCount s)%nat.
Proof.
  unfold unassignedFacts, noFacts. intros [= F1 F2 F3 F4 F5 F6 F7] Hin Hc.
  unfold shouldTransitionToNextStage.
  destruct (currentStage s); cbn in Hin, Hc;
    try (exfalso; intuition congruence);
    inversion Hc; subst c; cbn [MPT_STAGE_CONFIG minResponses];
    rewrite ?F1, ?F2, ?F3, ?F4, ?F5, ?F6, ?F7; cbn [isNull negb orb];
    match goal with
    | |- context [(stageResponseCount s <? ?m)%nat] =>
      destruct (Nat.ltb_spec (stageResponseCount s) m); [| reflexivity]
    end;
    symmetry; apply Nat.leb_gt; lia.
Qed.

Section Facts.
Context `{JsRuntime}.

Lemma applyExtractors_facts history message s :
  unassignedFacts (context (applyExtractors history message s)) =
  unassignedFacts (context s).
Proof.
  unfold applyExtractors.
  destruct (extractClientName history) as [[| c n] |], (extractImportanceRating message);
    reflexivity.
Qed.

Lemma processTurn_facts history message s :
  unassignedFacts (context (processTurn history message s)) =
  unassignedFacts (context s).
Proof.
  by rewrite processTurn_context, applyExtractors_facts.
Qed.

Lemma reachable_facts σ id st :
  reachable σ ->
  sessionStates σ !! id = Some st ->
  unassignedFacts (context st) = noFacts.
Proof.
  intros Hr. revert id st.
  induction Hr as [| r σ Hr IH Hf]; intros id st'.
  - cbn. by rewrite lookup_empty.
  - intros Hst'.
    destruct (sessionStates σ !! id) as [st |] eqn:Hst.
    + destruct (handle_known r σ id st Hf Hst) as [Hsame | (history & message & Hturn)].
      * rewrite Hsame in Hst'. injection Hst' as <-. by eapply IH.
      * rewrite Hturn in Hst'. injection Hst' as <-.
        rewrite processTurn_facts. by eapply IH.
    + destruct (handle_created r σ id st' Hst Hst')
        as [-> | (history & message & [-> | ->])];
        [reflexivity | |]; by rewrite processTurn_facts.
Qed.
End Facts.

(** C10.  In every state the server can reach, the clarified request, the
    current strategy, the deep need, the body location, the metaphor, the
    insight and the first step are null.  So at each of the seven stages that
    test one of them the fact-populated branch is never taken: the evaluator,
    which the handler calls on the state after it has counted the response and
    run the extractors, answers true exactly when the new count has reached
    the ceiling of the stage, and a request moves the session off such a stage
    only with a response that brings the count to the ceiling. *)
Theorem target_facts_never_assigned `{JsRuntime} (σ : Store) (id : jsstring)
        (st : SessionState) :
  reachable σ ->
  sessionStates σ !! id = Some st ->
  unassignedFacts (context st) = noFacts /\
  forall c, In (currentStage st) factStages ->
            turnCeiling (currentStage st) = Some c ->
            (forall history message,
                shouldTransitionToNextStage (applyExtractors history message st)
                = (c <=? S (stageResponseCount st))%nat) /\
            (forall r st',
                freshUuid r σ ->
                sessionStates (snd (handle r σ)) !! id = Some st' ->
                currentStage st' <> currentStage st ->
                c <= S (stageResponseCount st)).
Proof.
  intros Hr Hst.
  pose proof (reachable_facts σ id st Hr Hst) as Hfacts.
  split; [done |].
  intros c Hin Hc.
  assert (forall history message,
             shouldTransitionToNextStage (applyExtractors history message st)
             = (c <=? S (stageResponseCount st))%nat) as Heval.
  { intros history message.
    rewrite <- (applyExtractors_count history message st).
    apply fact_stage_transition.
    - by rewrite applyExtractors_facts.
    - by rewrite applyExtractors_stage.
    - by rewrite applyExtractors_stage. }
  split; [exact Heval |].
  intros r st' Hf Hst' Hmoved.
  destruct (handle_known r σ id st Hf Hst) as [Hsame | (history & message & Hturn)].
  - rewrite Hsame in Hst'. injection Hst' as <-. by destruct Hmoved.
  - rewrite Hturn in Hst'. injection Hst' as <-.
    unfold processTurn in Hmoved. rewrite Heval in Hmoved.
    destruct (Nat.leb_spec c (S (stageResponseCount st))) as [Hle | Hlt]; [exact Hle |].
    destruct Hmoved. apply applyExtractors_stage.
Qed.

(** ** The claims at sample inputs *)

Lemma stage_monotone_witness :
  let before := observedStage (@serve Basic.runtime [thesisTurn; contextTurn] emptyStore) uuid1 in
  let after :=
    observedStage (@serve Basic.runtime ([thesisTurn; contextTurn] ++ [ratingTurn]) emptyStore)
                  uuid1 in
  stageIndex (observedStage emptyStore uuid1) <= stageIndex before /\
  (after = before \/ getNextStage before = Some after) /\
  (stageIndex after = stageIndex before \/ stageIndex after = S (stageIndex before)).
Proof.
  apply (@stage_monotone Basic.runtime [thesisTurn; contextTurn] ratingTurn emptyStore uuid1).
  vm_compute. repeat split.
Defined.

Lemma below_minimum_witness :
  shouldTransitionToNextStage (stateAt find_need 2 busyContext) = false.
Proof.
  apply below_minimum_no_transition. cbn. lia.
Defined.

Lemma ceiling_witness :
  shouldTransitionToNextStage (stalledAt bodywork 4) = true /\
  forall history message s0,
    currentStage s0 = currentStage (stalledAt bodywork 4) ->
    S (stageResponseCount s0) = stageResponseCount (stalledAt bodywork 4) ->
    getNextStage (currentStage s0)
      = Some (currentStage (@processTurn Basic.runtime history message s0)) /\
    stageResponseCount (@processTurn Basic.runtime history message s0) = 0.
Proof.
  apply (@ceiling_forces_transition Basic.runtime (stalledAt bodywork 4) 4).
  - reflexivity.
  - cbn. lia.
Defined.

(** C4 fails after the first response at [finish]: the minimum of the
    registry is met and the evaluator still answers false. *)
Lemma finish_after_one_response :
  currentStage (stalledAt finish 1) = finish /\
  minResponses (MPT_STAGE_CONFIG finish) = 1 /\
  stageResponseCount (stalledAt finish 1) = 1 /\
  shouldTransitionToNextStage (stalledAt finish 1) = false.
Proof. repeat split. Qed.

Lemma finish_witness :
  shouldTransitionToNextStage (stalledAt finish 2)
  = (2 <=? stageResponseCount (stalledAt finish 2))%nat.
Proof.
  apply finish_needs_two_responses. reflexivity.
Defined.

Lemma transition_at_finish_witness :
  transitionToNextStage (stateAt finish 2 busyContext) =
  {| currentStage := finish;
     stageResponseCount := 2;
     currentQuestionIndex := 0;
     stageHistory := stageHistory (stateAt finish 2 busyContext);
     context := busyContext;
     requestType := Some procrastination;
     importanceRating := Some 9;
     lastClientResponse := js "да";
     clientSaysIDontKnow := false;
     movementOffered := true;
     integrationComplete := true;
     sessionStarted := true;
     sessionComplete := true |}.
Proof.
  apply (transition_at_finish (stateAt finish 2 busyContext)). reflexivity.
Defined.

Lemma clientName_witness :
  exists st', sessionStates (@serve Basic.runtime [petyaTurn] afterAnna) !! uuid1 = Some st' /\
              clientName (context st') = Some (js "Анна").
Proof.
  apply (@clientName_write_once Basic.runtime afterAnna [petyaTurn] uuid1
                                (stateOf afterAnna uuid1 [])).
  - apply reachable_handle; [apply reachable_empty | split; reflexivity].
  - vm_compute. repeat split.
  - vm_compute. reflexivity.
  - vm_compute. reflexivity.
Defined.

(** C7 fails on a message whose first matching pattern captures a number out
    of the range: the first pattern matches with 15, and the result is the 5
    of the second pattern, where the first match alone would give null. *)
Lemma first_match_does_not_win :
  map (@capturedNumber Basic.runtime (js "15 из 10, на 5")) importancePatterns
    = [Some 15; Some 5; None; None] /\
  @firstMatchingPatternWins Basic.runtime (js "15 из 10, на 5") = None /\
  @extractImportanceRating Basic.runtime (js "15 из 10, на 5") = Some 5.
Proof. vm_compute. repeat split. Qed.



(** C9 fails on the sentence of the scenario: the keyword tables are Russian,
    so the category is [general], and the turn has moved the session on to
    [collect_context] with the response count back at zero. *)
Lemma thesis_first_turn :
  exists st,
    sessionStates afterThesis !! uuid1 = Some st /\
    requestType st = Some general /\
    requestType st <> Some procrastination /\
    currentStage st = collect_context /\
    stageResponseCount st = 0 /\
    stageResponseCount st <> 1.
Proof.
  eexists. split; [vm_compute; reflexivity |].
  repeat split; discriminate.
Qed.

(** The Russian counterpart of the sentence is classified as procrastination. *)
Example thesis_in_russian :
  @detectRequestType Basic.runtime (js "Я всё время откладываю написание диплома")
  = procrastination.
Proof. vm_compute. reflexivity. Qed.

Lemma first_turn_witness :
  exists st,
    sessionStates (snd (@postChat Basic.runtime uuid1 None thesisBody emptyStore)) !! uuid1
      = Some st /\
    requestType st = Some (@detectRequestType Basic.runtime (message thesisRequest)) /\
    currentStage st = collect_context /\
    stageResponseCount st = 0 /\
    stageHistory st = [start_session].
Proof.
  apply (@first_turn_of_new_session Basic.runtime uuid1 None thesisBody thesisRequest
                                    emptyStore).
  - vm_compute. reflexivity.
  - reflexivity.
Defined.

Lemma target_facts_witness :
  unassignedFacts (context (stateOf nearCeiling uuid1 [])) = noFacts /\
  shouldTransitionToNextStage
    (@applyExtractors Basic.runtime [] (js "не знаю") (stateOf nearCeiling uuid1 []))
  = (4 <=? S (stageResponseCount (stateOf nearCeiling uuid1 [])))%nat /\
  4 <= S (stageResponseCount (stateOf nearCeiling uuid1 [])).
Proof.
  destruct (@target_facts_never_assigned Basic.runtime nearCeiling uuid1
              (stateOf nearCeiling uuid1 [])) as [Hfacts Hstage].
  - apply (@reachable_serve Basic.runtime); [apply reachable_empty |].
    vm_compute. repeat split.
  - vm_compute. reflexivity.
  - destruct (Hstage 4) as [Heval Hmove].
    + vm_compute. tauto.
    + reflexivity.
    + split; [exact Hfacts | split; [apply Heval |]].
      apply (Hmove dontKnowTurn (stateOf (snd (@handle Basic.runtime dontKnowTurn nearCeiling))
                                         uuid1 [])).
      * vm_compute. repeat split.
      * vm_compute. reflexivity.
      * vm_compute. discriminate.
Defined.

(** * Further properties of the session store *)

(** ** What a turn keeps *)

Ltac by_extractors :=
  unfold applyExtractors;
  destruct (extractClientName _) as [[| ? ?] |], (extractImportanceRating _);
  reflexivity.

Ltac by_transition :=
  unfold transitionToNextStage;
  destruct (getNextStage _);
  reflexivity.

Section Kept.
Context `{JsRuntime}.

Lemma processTurn_requestType history message s :
  requestType (processTurn history message s) = requestType s.
Proof.
  unfold processTurn. destruct (shouldTransitionToNextStage _).
  - transitivity (requestType (applyExtractors history message s));
      [by_transition | by_extractors].
  - by_extractors.
Qed.

Lemma applyExtractors_originalRequest history message s :
  originalRequest (context (applyExtractors history message s)) = originalRequest (context s).
Proof. by_extractors. Qed.

Lemma processTurn_originalRequest history message s :
  originalRequest (context (processTurn history message s)) = originalRequest (context s).
Proof.
  by rewrite processTurn_context, applyExtractors_originalRequest.
Qed.

Lemma applyExtractors_history history message s :
  stageHistory (applyExtractors history message s) = stageHistory s.
Proof. by_extractors. Qed.

Lemma applyExtractors_complete history message s :
  sessionComplete (applyExtractors history message s) = sessionComplete s.
Proof. by_extractors. Qed.

(** A property of states that every turn keeps holds along any sequence of
    requests. *)
Lemma serve_preserved (P : SessionState -> Prop) :
  (forall history message s, P s -> P (processTurn history message s)) ->
  forall rs σ id st,
    allFresh rs σ ->
    sessionStates σ !! id = Some st ->
    P st ->
    exists st', sessionStates (serve rs σ) !! id = Some st' /\ P st'.
Proof.
  intros Hturn rs. induction rs as [| r rs IH]; intros σ id st Hf Hst HP; cbn in *.
  - by exists st.
  - destruct Hf as [Hf Hfs].
    destruct (handle_known r σ id st Hf Hst) as [Hsame | (history & message & Hnext)].
    + by apply (IH _ _ st).
    + apply (IH _ _ _ Hfs Hnext). by apply Hturn.
Qed.

(** A property that holds of every state a route creates and that every turn
    keeps holds of every state of every reachable store. *)
Lemma reachable_invariant (P : SessionState -> Prop) :
  P createInitialSessionState ->
  (forall message, P (newSessionState message)) ->
  (forall message, P (fallbackState message)) ->
  (forall history message s, P s -> P (processTurn history message s)) ->
  forall σ, reachable σ -> forall id st, sessionStates σ !! id = Some st -> P st.
Proof.
  intros Hinit Hnew Hfall Hturn σ Hr.
  induction Hr as [| r σ Hr IH Hf]; intros id st'.
  - cbn. by rewrite lookup_empty.
  - intros Hst'.
    destruct (sessionStates σ !! id) as [st |] eqn:Hst.
    + destruct (handle_known r σ id st Hf Hst) as [Hsame | (history & message & Hnext)].
      * rewrite Hsame in Hst'. injection Hst' as <-. by eapply IH.
      * rewrite Hnext in Hst'. injection Hst' as <-. apply Hturn. by eapply IH.
    + destruct (handle_created r σ id st' Hst Hst')
        as [-> | (history & message & [-> | ->])].
      * done.
      * apply Hturn, Hnew.
      * apply Hturn, (Hfall message).
Qed.
End Kept.

(** X1.  The category of a session is pinned: whatever requests follow, the
    state of the session holds the request type it held before. *)
Theorem requestType_stable `{JsRuntime} (rs : list request) (σ : Store) (id : jsstring)
        (st : SessionState) :
  allFresh rs σ ->
  sessionStates σ !! id = Some st ->
  exists st', sessionStates (serve rs σ) !! id = Some st' /\
              requestType st' = requestType st.
Proof.
  intros Hf Hst.
  apply (serve_preserved (fun s => requestType s = requestType st)) with (st := st);
    [| done | done | done].
  intros history message s <-. apply processTurn_requestType.
Qed.

(** X2.  The original request of a session is never replaced: it is the
    message that created the session (or null for a session made by
    [/api/sessions/new]) after every later request. *)
Theorem originalRequest_stable `{JsRuntime} (rs : list request) (σ : Store) (id : jsstring)
        (st : SessionState) :
  allFresh rs σ ->
  sessionStates σ !! id = Some st ->
  exists st', sessionStates (serve rs σ) !! id = Some st' /\
              originalRequest (context st') = originalRequest (context st).
Proof.
  intros Hf Hst.
  apply (serve_preserved
           (fun s => originalRequest (context s) = originalRequest (context st)))
    with (st := st); [| done | done | done].
  intros history message s <-. apply processTurn_originalRequest.
Qed.

(** ** The history log *)

Lemma transition_history_prefix (s : SessionState) :
  stageHistory s = take (stageIndex (currentStage s)) MPT_STAGE_ORDER ->
  stageHistory (transitionToNextStage s)
  = take (stageIndex (currentStage (transitionToNextStage s))) MPT_STAGE_ORDER.
Proof.
  intros Hs. unfold transitionToNextStage.
  destruct (getNextStage (currentStage s)) as [next |] eqn:E; cbn; [| done].
  rewrite Hs. pose proof (getNextStage_index _ _ E) as ->.
  destruct (currentStage s); vm_compute in E; try discriminate E; reflexivity.
Qed.

(** X3.  In every reachable state the history log lists exactly the stages
    that precede the current stage in [MPT_STAGE_ORDER], in that order: a
    stage enters the log once, when the session leaves it. *)
Theorem stageHistory_is_order_prefix `{JsRuntime} (σ : Store) (id : jsstring)
        (st : SessionState) :
  reachable σ ->
  sessionStates σ !! id = Some st ->
  stageHistory st = take (stageIndex (currentStage st)) MPT_STAGE_ORDER.
Proof.
  intros Hr Hst.
  apply (reachable_invariant
           (fun s => stageHistory s = take (stageIndex (currentStage s)) MPT_STAGE_ORDER))
    with (σ := σ) (id := id); try done.
  intros history message s Hs. unfold processTurn.
  assert (stageHistory (applyExtractors history message s)
          = take (stageIndex (currentStage (applyExtractors history message s)))
                 MPT_STAGE_ORDER) as Hs1.
  { by rewrite applyExtractors_history, applyExtractors_stage. }
  destruct (shouldTransitionToNextStage _); [by apply transition_history_prefix | done].
Qed.

(** ** Sessions that never advance, sessions that complete *)

Ltac sum_budgets :=
  repeat match goal with
         | |- context [sum_list ?l] =>
           let v := eval vm_compute in (sum_list l) in
           change (sum_list l) with v
         end.

Section Progress.
Context `{JsRuntime}.

Lemma stuck_turn history message s :
  originalRequest (context s) = None ->
  currentStage s = start_session ->
  processTurn history message s = applyExtractors history message s.
Proof.
  intros Ho Hs. unfold processTurn.
  assert (shouldTransitionToNextStage (applyExtractors history message s) = false) as ->;
    [| done].
  unfold shouldTransitionToNextStage.
  rewrite applyExtractors_stage, applyExtractors_originalRequest, Hs, Ho.
  by destruct (_ <? _)%nat.
Qed.

Lemma stay_below_budget s :
  shouldTransitionToNextStage s = false ->
  originalRequest (context s) <> None ->
  stageResponseCount s < stageBudget (currentStage s).
Proof.
  intros Hno Ho. unfold stageBudget.
  destruct (turnCeiling (currentStage s)) as [c |] eqn:Hc.
  - destruct (Nat.lt_ge_cases (stageResponseCount s) c) as [Hlt | Hge]; [done |].
    rewrite (at_ceiling s c Hc Hge) in Hno. discriminate.
  - unfold shouldTransitionToNextStage in Hno.
    destruct (currentStage s); try discriminate Hc; cbn in Hno.
    + destruct (originalRequest (context s)); [| done].
      destruct (stageResponseCount s); [lia | discriminate].
    + destruct (stageResponseCount s) as [| [| n]]; [lia | lia | discriminate].
Qed.

Lemma processTurn_progress history message s :
  originalRequest (context s) <> None ->
  sessionComplete (processTurn history message s) = true \/
  turnsLeft (processTurn history message s) < turnsLeft s.
Proof.
  intros Ho. unfold processTurn.
  destruct (shouldTransitionToNextStage _) eqn:E.
  - unfold transitionToNextStage.
    rewrite applyExtractors_stage.
    destruct (getNextStage (currentStage s)) as [next |] eqn:En; [right | by left].
    unfold turnsLeft; cbn [currentStage stageResponseCount].
    destruct (currentStage s); vm_compute in En; try discriminate En;
      injection En as <-; cbn [stageBudget turnCeiling]; sum_budgets; lia.
  - right.
    apply stay_below_budget in E; [| by rewrite applyExtractors_originalRequest].
    rewrite applyExtractors_stage, applyExtractors_count in E.
    unfold turnsLeft. rewrite applyExtractors_stage, applyExtractors_count. lia.
Qed.

Lemma processTurn_complete history message s :
  sessionComplete s = true -> sessionComplete (processTurn history message s) = true.
Proof.
  intros Hc. unfold processTurn.
  destruct (shouldTransitionToNextStage _).
  - unfold transitionToNextStage. destruct (getNextStage _); cbn; [| done].
    by rewrite applyExtractors_complete.
  - by rewrite applyExtractors_complete.
Qed.

Lemma runTurns_complete turns s :
  sessionComplete s = true -> sessionComplete (runTurns turns s) = true.
Proof.
  revert s. induction turns as [| t turns IH]; intros s Hc; cbn; [done |].
  by apply IH, processTurn_complete.
Qed.

Lemma runTurns_completes turns s :
  originalRequest (context s) <> None ->
  turnsLeft s <= length turns ->
  sessionComplete (runTurns turns s) = true.
Proof.
  revert s. induction turns as [| t turns IH]; intros s Ho Hlen; cbn in *.
  - unfold turnsLeft in Hlen. lia.
  - destruct (processTurn_progress (fst t) (snd t) s Ho) as [Hc | Hlt].
    + by apply runTurns_complete.
    + apply IH; [by rewrite processTurn_originalRequest | lia].
Qed.

Lemma turnsLeft_bound s : turnsLeft s <= 33.
Proof.
  unfold turnsLeft.
  destruct (currentStage s); cbn [stageBudget turnCeiling]; sum_budgets; lia.
Qed.
End Progress.

(** X4.  A session made by [/api/sessions/new] never advances: its original
    request is null and no chat request sets it, so whatever requests follow
    it stays at [start_session], without a category and not complete. *)
Theorem sessions_new_never_advances `{JsRuntime} (uuid : jsstring) (rs : list request)
        (σ : Store) :
  allFresh (PostSessionsNew uuid :: rs) σ ->
  exists st,
    sessionStates (serve (PostSessionsNew uuid :: rs) σ) !! uuid = Some st /\
    currentStage st = start_session /\
    originalRequest (context st) = None /\
    requestType st = None /\
    sessionComplete st = false.
Proof.
  intros [_ Hf]. cbn [serve handle postSessionsNew snd] in *.
  apply (serve_preserved
           (fun s => currentStage s = start_session /\
                     originalRequest (context s) = None /\
                     requestType s = None /\
                     sessionComplete s = false))
    with (st := createInitialSessionState); [| done | apply lookup_insert_eq | done].
  intros history message s (Hs & Ho & Ht & Hc).
  rewrite (stuck_turn _ _ _ Ho Hs).
  rewrite applyExtractors_stage, applyExtractors_originalRequest, applyExtractors_complete.
  repeat split; try done.
  rewrite <- Ht. by_extractors.
Qed.

(** X5.  A session whose original request is on record is complete after
    thirty-three turns at the latest, from whatever state and whatever the
    client answers: one turn at [start_session], at most the ceiling of each
    stage from [collect_context] to [plan_actions], two turns at [finish]. *)
Theorem session_completes_within_33_turns `{JsRuntime}
        (turns : list (list Message * jsstring)) (s : SessionState) :
  originalRequest (context s) <> None ->
  33 <= length turns ->
  sessionComplete (runTurns turns s) = true.
Proof.
  intros Ho Hlen. apply runTurns_completes; [done |].
  pose proof (turnsLeft_bound s). lia.
Qed.

(** X6.  In every reachable state, [sessionComplete] is set only at [finish]
    and only from the second response there on. *)
Theorem complete_only_at_finish `{JsRuntime} (σ : Store) (id : jsstring) (st : SessionState) :
  reachable σ ->
  sessionStates σ !! id = Some st ->
  sessionComplete st = true ->
  currentStage st = finish /\ 2 <= stageResponseCount st.
Proof.
  intros Hr Hst.
  apply (reachable_invariant
           (fun s => sessionComplete s = true ->
                     currentStage s = finish /\ 2 <= stageResponseCount s))
    with (σ := σ) (id := id); try done.
  intros history message s Hs. unfold processTurn.
  destruct (shouldTransitionToNextStage _) eqn:E.
  - unfold transitionToNextStage.
    destruct (getNextStage _) as [next |] eqn:En; cbn.
    + rewrite applyExtractors_complete. intros Hc.
      destruct (Hs Hc) as [Hfin _].
      rewrite applyExtractors_stage, Hfin in En. vm_compute in En. discriminate En.
    + intros _. apply getNextStage_finish in En. split; [done |].
      unfold shouldTransitionToNextStage in E. rewrite En in E. cbn in E.
      destruct (stageResponseCount (applyExtractors history message s)) as [| [| n]];
        cbn in E; [discriminate E | discriminate E | lia].
  - rewrite applyExtractors_complete, applyExtractors_stage, applyExtractors_count.
    intros Hc. destruct (Hs Hc). split; [done | lia].
Qed.

(** X7.  Completion is permanent: a session that is complete is complete
    after every later sequence of requests. *)
Theorem completion_is_permanent `{JsRuntime} (rs : list request) (σ : Store) (id : jsstring)
        (st : SessionState) :
  allFresh rs σ ->
  sessionStates σ !! id = Some st ->
  sessionComplete st = true ->
  exists st', sessionStates (serve rs σ) !! id = Some st' /\ sessionComplete st' = true.
Proof.
  intros Hf Hst Hc.
  apply (serve_preserved (fun s => sessionComplete s = true)) with (st := st); try done.
  intros history message s. apply processTurn_complete.
Qed.

(** ** The stored rating and the response count *)

Lemma extractImportanceRating_range `{JsRuntime} message r :
  extractImportanceRating message = Some r -> 1 <= r <= 10.
Proof.
  intros E. apply firstSome_Some in E as (before & p & after & _ & Hp & _).
  by apply ratingByPattern_Some in Hp as [_ Hr].
Qed.

Lemma processTurn_importanceRating `{JsRuntime} history message s :
  importanceRating (processTurn history message s) =
  match extractImportanceRating message with
  | Some r => Some r
  | None => importanceRating s
  end.
Proof.
  unfold processTurn.
  transitivity (importanceRating (applyExtractors history message s)).
  - destruct (shouldTransitionToNextStage _); [by_transition | done].
  - by_extractors.
Qed.

(** X8.  The importance rating a reachable state holds is an integer from 1
    to 10. *)
Theorem stored_rating_in_range `{JsRuntime} (σ : Store) (id : jsstring) (st : SessionState)
        (r : nat) :
  reachable σ ->
  sessionStates σ !! id = Some st ->
  importanceRating st = Some r ->
  1 <= r <= 10.
Proof.
  intros Hr Hst. revert r.
  apply (reachable_invariant
           (fun s => forall r, importanceRating s = Some r -> 1 <= r <= 10))
    with (σ := σ) (id := id); try done.
  intros history message s Hs r. rewrite processTurn_importanceRating.
  destruct (extractImportanceRating message) as [r' |] eqn:E; [| apply Hs].
  intros [= <-]. by apply extractImportanceRating_range in E.
Qed.

(** X9.  In every reachable state at a stage with a turn-count ceiling the
    response count is below the ceiling: the count that reaches the ceiling
    is reset by the transition of the same turn. *)
Theorem count_below_ceiling `{JsRuntime} (σ : Store) (id : jsstring) (st : SessionState)
        (c : nat) :
  reachable σ ->
  sessionStates σ !! id = Some st ->
  turnCeiling (currentStage st) = Some c ->
  stageResponseCount st < c.
Proof.
  intros Hr Hst. revert c.
  apply (reachable_invariant
           (fun s => forall c, turnCeiling (currentStage s) = Some c ->
                               stageResponseCount s < c))
    with (σ := σ) (id := id); try done.
  intros history message s Hs c. unfold processTurn.
  destruct (shouldTransitionToNextStage _) eqn:E.
  - unfold transitionToNextStage.
    destruct (getNextStage _) as [next |] eqn:En; cbn.
    + destruct next; cbn; intros [= <-]; lia.
    + apply getNextStage_finish in En. rewrite En. discriminate.
  - intros Hc.
    destruct (Nat.lt_ge_cases (stageResponseCount (applyExtractors history message s)) c)
      as [Hlt | Hge]; [done |].
    rewrite (at_ceiling _ c Hc Hge) in E. discriminate.
Qed.

(** ** The two maps and the conversation *)

Section Maps.
Context `{JsRuntime}.

Lemma turn_sessions id message σ id' :
  sessions (turn id message σ) !! id'
  = sessions (pushTo id {| role := user; content := message |} σ) !! id'.
Proof. reflexivity. Qed.

Lemma pushTo_is_Some id msg σ id' :
  is_Some (sessions (pushTo id msg σ) !! id') <-> is_Some (sessions σ !! id').
Proof.
  unfold pushTo; cbn.
  destruct (decide (id = id')) as [-> | Hne].
  - rewrite lookup_alter_eq. apply fmap_is_Some.
  - by rewrite lookup_alter_ne.
Qed.

Lemma handle_domains r σ :
  (forall id, is_Some (sessions σ !! id) <-> is_Some (sessionStates σ !! id)) ->
  forall id, is_Some (sessions (snd (handle r σ)) !! id)
             <-> is_Some (sessionStates (snd (handle r σ)) !! id).
Proof.
  intros Hdom id.
  destruct r as [uuid reply body | uuid]; cbn.
  - destruct (chatRequestSchema body) as [req |] eqn:E.
    + rewrite (postChat_states _ _ _ _ _ E), (postChat_valid _ _ _ _ _ E).
      cbn zeta.
      assert (is_Some (sessions (match reply with
                                 | Some text =>
                                   pushTo (fst (openSession uuid req σ))
                                          {| role := assistant; content := text |}
                                          (turn (fst (openSession uuid req σ)) (message req)
                                                (snd (openSession uuid req σ)))
                                 | None =>
                                   turn (fst (openSession uuid req σ)) (message req)
                                        (snd (openSession uuid req σ))
                                 end) !! id)
              <-> is_Some (sessions (snd (openSession uuid req σ)) !! id)) as ->.
      { destruct reply; [rewrite pushTo_is_Some |]; rewrite turn_sessions; apply pushTo_is_Some. }
      unfold turn; cbn [sessionStates pushTo].
      unfold openSession.
      destruct (existingSession σ (sessionId req)) as [id0 |] eqn:Ex; cbn [fst snd sessions sessionStates].
      * apply existingSession_Some in Ex. apply Hdom in Ex.
        destruct (decide (id0 = id)) as [-> | Hne].
        -- rewrite lookup_insert_eq. rewrite Hdom. split; [by eexists | done].
        -- rewrite lookup_insert_ne by done. apply Hdom.
      * destruct (decide (uuid = id)) as [-> | Hne].
        -- rewrite !lookup_insert_eq. split; by eexists.
        -- rewrite !lookup_insert_ne by done. apply Hdom.
    + rewrite postChat_invalid by done. apply Hdom.
  - destruct (decide (uuid = id)) as [-> | Hne].
    + rewrite !lookup_insert_eq. split; by eexists.
    + rewrite !lookup_insert_ne by done. apply Hdom.
Qed.

Lemma handle_history r σ id :
  freshUuid r σ ->
  exists t, historyOf (snd (handle r σ)) id = historyOf σ id ++ t.
Proof.
  intros [Hfresh _].
  assert (forall uuid st0,
             sessions σ !! uuid = None ->
             historyOf {| sessions := <[uuid := {| messages := [] |}]> (sessions σ);
                          sessionStates := st0 |} id = historyOf σ id) as Hnew.
  { intros uuid st0 Hnone. unfold historyOf; cbn.
    destruct (decide (uuid = id)) as [-> | Hne].
    - by rewrite lookup_insert_eq, Hnone.
    - by rewrite lookup_insert_ne. }
  destruct r as [uuid reply body | uuid]; cbn in *.
  - destruct (chatRequestSchema body) as [req |] eqn:E.
    + rewrite (postChat_valid _ _ _ _ _ E). cbn zeta.
      assert (exists t0, historyOf (snd (openSession uuid req σ)) id = historyOf σ id ++ t0)
        as [t0 Ht0].
      { unfold openSession. destruct (existingSession _ _); cbn.
        - exists []. by rewrite app_nil_r.
        - exists []. rewrite app_nil_r. by apply Hnew. }
      assert (forall i m σ', historyOf (turn i m σ') id
                             = historyOf (pushTo i {| role := user; content := m |} σ') id)
        as Hturn by done.
      destruct (historyOf_pushTo (fst (openSession uuid req σ)) id
                  {| role := user; content := message req |}
                  (snd (openSession uuid req σ))) as [t1 Ht1].
      destruct reply as [text |].
      * destruct (historyOf_pushTo (fst (openSession uuid req σ)) id
                    {| role := assistant; content := text |}
                    (turn (fst (openSession uuid req σ)) (message req)
                          (snd (openSession uuid req σ)))) as [t2 Ht2].
        exists (t0 ++ t1 ++ t2). rewrite Ht2, Hturn, Ht1, Ht0. by rewrite !app_assoc.
      * exists (t0 ++ t1). rewrite Hturn, Ht1, Ht0. by rewrite !app_assoc.
    + rewrite postChat_invalid by done. exists []. by rewrite app_nil_r.
  - exists []. rewrite app_nil_r. by apply Hnew.
Qed.
End Maps.

(** X10.  In every reachable store a session has a conversation exactly when
    it has a state: the branch of [/api/chat] that makes a state for a
    session without one is never taken. *)
Theorem every_session_has_a_state `{JsRuntime} (σ : Store) (id : jsstring) :
  reachable σ ->
  is_Some (sessions σ !! id) <-> is_Some (sessionStates σ !! id).
Proof.
  intros Hr. revert id.
  induction Hr as [| r σ Hr IH Hf]; intros id.
  - cbn. rewrite !lookup_empty. split; intros [? ?]; discriminate.
  - by apply handle_domains.
Qed.

(** X11.  The conversation of a session is append-only: its history before a
    sequence of requests is a prefix of its history after. *)
Theorem history_is_append_only `{JsRuntime} (rs : list request) (σ : Store) (id : jsstring) :
  allFresh rs σ ->
  historyOf σ id `prefix_of` historyOf (serve rs σ) id.
Proof.
  revert σ. induction rs as [| r rs IH]; intros σ Hf; cbn in *; [done |].
  destruct Hf as [Hf Hfs].
  destruct (handle_history r σ id Hf) as [t Ht].
  etrans; [| by apply IH]. rewrite Ht. by apply prefix_app_r.
Qed.

(** X12.  A chat request that names no session, or a session the server does
    not know, opens a new session under the drawn id: the answer carries that
    id and the stage [collect_context], and the new conversation holds the
    message and the reply. *)
Theorem unknown_session_opens_new `{JsRuntime} (uuid : jsstring) (reply : option jsstring)
        (body : ChatBody) (req : ChatRequest) (σ : Store) :
  chatRequestSchema body = Some req ->
  existingSession σ (sessionId req) = None ->
  fst (postChat uuid reply body σ)
    = EventStream uuid collect_context (bool_decide (is_Some reply)) /\
  historyOf (snd (postChat uuid reply body σ)) uuid
    = {| role := user; content := message req |} :: replyMessages reply.
Proof.
  intros E Hnew.
  assert (openSession uuid req σ
          = (uuid, {| sessions := <[uuid := {| messages := [] |}]> (sessions σ);
                      sessionStates :=
                        <[uuid := newSessionState (message req)]> (sessionStates σ) |}))
    as Ho.
  { unfold openSession. by rewrite Hnew. }
  split.
  - unfold postChat. rewrite E, Ho.
    assert (currentStage
              (stateOf (turn uuid (message req)
                             {| sessions := <[uuid := {| messages := [] |}]> (sessions σ);
                                sessionStates :=
                                  <[uuid := newSessionState (message req)]> (sessionStates σ) |})
                       uuid (message req)) = collect_context) as ->.
    { unfold stateOf, turn, pushTo, stateOf. cbn [sessionStates].
      rewrite !lookup_insert_eq.
      match goal with
      | |- currentStage (processTurn ?h ?m _) = _ =>
        pose proof (first_processTurn h m) as Hfirst
      end.
      cbn zeta in Hfirst. by destruct Hfirst as (_ & Hstage & _). }
    by destruct reply.
  - rewrite (postChat_valid _ _ _ _ _ E), Ho. cbn [fst snd].
    unfold historyOf, turn, pushTo. cbn zeta.
    destruct reply; cbn [sessions]; rewrite ?lookup_alter_eq, lookup_insert_eq; reflexivity.
Qed.

(** X13.  A chat request for a known session appends the message, and the
    reply after it, to the conversation of that session, and answers with the
    id of the session. *)
Theorem known_session_appends `{JsRuntime} (uuid : jsstring) (reply : option jsstring)
        (body : ChatBody) (req : ChatRequest) (σ : Store) (id : jsstring) :
  chatRequestSchema body = Some req ->
  existingSession σ (sessionId req) = Some id ->
  historyOf (snd (postChat uuid reply body σ)) id
    = historyOf σ id ++ {| role := user; content := message req |} :: replyMessages reply /\
  exists stage, fst (postChat uuid reply body σ)
                = EventStream id stage (bool_decide (is_Some reply)).
Proof.
  intros E Hex.
  assert (openSession uuid req σ = (id, σ)) as Ho.
  { unfold openSession. by rewrite Hex. }
  apply existingSession_Some in Hex as [sess Hsess].
  split.
  - rewrite (postChat_valid _ _ _ _ _ E), Ho. cbn [fst snd].
    unfold historyOf, turn, pushTo. cbn zeta.
    destruct reply; cbn [sessions]; rewrite ?lookup_alter_eq, Hsess; cbn;
      by rewrite <- ?app_assoc.
  - unfold postChat. rewrite E, Ho. destruct reply; by eexists.
Qed.

(** * Further properties of the extractors and of the text functions *)

(** ** Substrings *)

Lemma startsWith_spec (p s : jsstring) :
  startsWith p s = true <-> exists suf, s = p ++ suf.
Proof.
  revert s. induction p as [| a p IH]; intros s; cbn.
  - split; [by exists s | done].
  - destruct s as [| b s].
    + split; [discriminate | intros [suf Hs]; discriminate Hs].
    + rewrite andb_true_iff, N.eqb_eq, IH. split.
      * intros [-> [suf ->]]. by exists suf.
      * intros [suf [= -> ->]]. split; [done | by exists suf].
Qed.

Lemma includes_spec (s p : jsstring) :
  includes s p = true <-> exists pre suf, s = pre ++ p ++ suf.
Proof.
  induction s as [| c s IH].
  - cbn. rewrite orb_false_r, startsWith_spec. split.
    + intros [suf Hs]. by exists [], suf.
    + intros (pre & suf & Hs). destruct pre; [by exists suf | discriminate Hs].
  - cbn [includes]. rewrite orb_true_iff, startsWith_spec, IH. split.
    + intros [[suf Hs] | (pre & suf & ->)].
      * by exists [], suf.
      * by exists (c :: pre), suf.
    + intros ([| c' pre] & suf & Hs).
      * left. by exists suf.
      * right. injection Hs as -> ->. by exists pre, suf.
Qed.

Lemma includes_app_l (a b p : jsstring) : includes a p = true -> includes (a ++ b) p = true.
Proof.
  rewrite !includes_spec. intros (pre & suf & ->).
  exists pre, (suf ++ b). by rewrite <- !app_assoc.
Qed.

Lemma includes_app_r (a b p : jsstring) : includes b p = true -> includes (a ++ b) p = true.
Proof.
  rewrite !includes_spec. intros (pre & suf & ->).
  exists (a ++ pre), suf. by rewrite <- !app_assoc.
Qed.

Lemma includes_join (sep : jsstring) (arr : list jsstring) (x p : jsstring) :
  In x arr -> includes x p = true -> includes (join sep arr) p = true.
Proof.
  induction arr as [| y arr IH]; [done |].
  intros [-> | Hin] Hp.
  - destruct arr; cbn; [done | by apply includes_app_l].
  - destruct arr as [| z arr]; [done |].
    cbn [join]. apply includes_app_r, includes_app_r. by apply IH.
Qed.

Lemma existsb_includes (s : jsstring) (keywords : list jsstring) (k : jsstring) :
  In k keywords -> includes s k = true -> existsb (includes s) keywords = true.
Proof.
  intros Hin Hk. apply existsb_exists. by exists k.
Qed.

(** ** The client name *)

Lemma firstSome_filter {A B} (f : A -> option B) (keep : A -> bool) (l : list A) :
  (forall x, keep x = false -> f x = None) ->
  firstSome f (List.filter keep l) = firstSome f l.
Proof.
  intros Hf. induction l as [| x l IH]; cbn; [done |].
  destruct (keep x) eqn:E; cbn.
  - by rewrite IH.
  - by rewrite (Hf x E).
Qed.

(** X14.  Only the client's own messages can give the name: the messages of
    the assistant are passed over, so the extractor gives the same result on
    the conversation and on its user messages alone. *)
Theorem name_comes_from_user_messages `{JsRuntime} (messages : list Message) :
  extractClientName messages
  = extractClientName (List.filter (fun m => bool_decide (role m = user)) messages).
Proof.
  unfold extractClientName. symmetry. apply firstSome_filter.
  intros m Hm. unfold nameInMessage. by rewrite Hm.
Qed.

(** X15.  A name the extractor returns comes from a user message and one of
    the patterns: it is the captured token, of 2 to 20 code units, with its
    first unit in upper case and the rest in lower case, and its lower-case
    form is not a stop word. *)
Theorem extracted_name_shape `{JsRuntime} (messages : list Message) (n : jsstring) :
  extractClientName messages = Some n ->
  exists msg p token,
    In msg messages /\ role msg = user /\ In p namePatterns /\
    matchGroup1 p (content msg) = Some (Some token) /\
    2 <= length token <= 20 /\
    n = toUpperCase (take 1 token) ++ toLowerCase (drop 1 token) /\
    arrayIncludes stopWords (toLowerCase n) = false.
Proof.
  intros E. unfold extractClientName in E.
  apply firstSome_Some in E as (before & msg & after & Hl & Hmsg & _).
  unfold nameInMessage in Hmsg. case_bool_decide as Hrole; [| discriminate].
  apply firstSome_Some in Hmsg as (pb & p & pa & Hp & Hn & _).
  unfold nameByPattern in Hn.
  destruct (matchGroup1 p (content msg)) as [[token |] |] eqn:Hm; try discriminate.
  destruct (2 <=? length token)%nat eqn:Hlo; cbn [andb] in Hn; [| discriminate].
  destruct (length token <=? 20)%nat eqn:Hhi; [| discriminate].
  destruct (arrayIncludes stopWords _) eqn:Hstop; cbn [negb] in Hn; [discriminate |].
  injection Hn as <-.
  apply Nat.leb_le in Hlo, Hhi.
  exists msg, p, token. repeat split; try done.
  - rewrite Hl. apply in_or_app. right. by left.
  - rewrite Hp. apply in_or_app. right. by left.
Qed.

(** ** The category *)

Lemma detectIn_first (entries : list (RequestType * list jsstring)) (lower : jsstring) :
  (detectIn entries lower = general /\
   Forall (fun e => fst e <> general -> existsb (includes lower) (snd e) = false) entries) \/
  (exists before type keywords after,
      entries = before ++ (type, keywords) :: after /\
      detectIn entries lower = type /\
      type <> general /\
      existsb (includes lower) keywords = true /\
      Forall (fun e => fst e <> general -> existsb (includes lower) (snd e) = false) before).
Proof.
  induction entries as [| [type keywords] entries IH]; cbn.
  - left. by split.
  - case_bool_decide as Ht.
    + destruct IH as [[Hg Hall] | (before & t & kws & after & -> & Hd & Hne & Hk & Hall)].
      * left. split; [done |]. constructor; [| done]. cbn. congruence.
      * right. exists ((type, keywords) :: before), t, kws, after.
        repeat split; try done. constructor; [| done]. cbn. congruence.
    + destruct (existsb (includes lower) keywords) eqn:Hk.
      * right. exists [], type, keywords, entries. by repeat split.
      * destruct IH as [[Hg Hall] | (before & t & kws & after & -> & Hd & Hne & Hk' & Hall)].
        -- left. split; [done |]. by constructor.
        -- right. exists ((type, keywords) :: before), t, kws, after.
           repeat split; try done. by constructor.
Qed.

(** X16.  The classifier gives the first category, in the order of the
    table, one of whose keywords occurs in the lower-cased message, and
    [general] exactly when no keyword of any category occurs. *)
Theorem first_category_wins `{JsRuntime} (message : jsstring) :
  (detectRequestType message = general /\
   Forall (fun e => existsb (includes (toLowerCase message)) (snd e) = false)
          REQUEST_TYPE_KEYWORDS) \/
  (exists before type keywords after,
      REQUEST_TYPE_KEYWORDS = before ++ (type, keywords) :: after /\
      detectRequestType message = type /\
      type <> general /\
      existsb (includes (toLowerCase message)) keywords = true /\
      Forall (fun e => existsb (includes (toLowerCase message)) (snd e) = false) before).
Proof.
  unfold detectRequestType.
  assert (Forall (fun e => fst e = general -> snd e = []) REQUEST_TYPE_KEYWORDS) as Hgen.
  { unfold REQUEST_TYPE_KEYWORDS.
    repeat (constructor;
            [cbn [fst snd]; intros Hc; first [discriminate Hc | reflexivity] |]).
    constructor. }
  assert (forall l : list (RequestType * list jsstring),
             Forall (fun e => fst e = general -> snd e = []) l ->
             Forall (fun e => fst e <> general ->
                              existsb (includes (toLowerCase message)) (snd e) = false) l ->
             Forall (fun e => existsb (includes (toLowerCase message)) (snd e) = false) l)
    as Hall.
  { intros l H1 H2. induction l as [| e l IH]; [constructor |].
    inversion H1; inversion H2; subst. constructor; [| by apply IH].
    destruct (decide (fst e = general)) as [Hg | Hg]; [| by auto].
    match goal with Hs : fst e = general -> snd e = [] |- _ => by rewrite (Hs Hg) end. }
  destruct (detectIn_first REQUEST_TYPE_KEYWORDS (toLowerCase message))
    as [[Hg Hno] | (before & type & keywords & after & Hl & Hd & Hne & Hk & Hno)].
  - left. split; [done |]. by apply Hall.
  - right. exists before, type, keywords, after. repeat split; try done.
    apply Hall; [| done].
    rewrite Hl in Hgen. by apply Forall_app in Hgen as [? _].
Qed.

(** ** The filter of reasoning blocks *)

Lemma thinkOpen_units : thinkOpen = [0x3C; 0x74; 0x68; 0x69; 0x6E; 0x6B; 0x3E]%N.
Proof. vm_compute. reflexivity. Qed.

Lemma thinkClose_units : thinkClose = [0x3C; 0x2F; 0x74; 0x68; 0x69; 0x6E; 0x6B; 0x3E]%N.
Proof. vm_compute. reflexivity. Qed.

Lemma filterThinkFrom_skip (a rest : jsstring) (inside : bool) :
  filterThinkFrom (length a) inside (a ++ rest) = filterThinkFrom 0 inside rest.
Proof.
  induction a as [| c a IH]; cbn; [done | apply IH].
Qed.

Lemma filterThinkFrom_sublist (skip : nat) (inside : bool) (content : jsstring) :
  fst (filterThinkFrom skip inside content) `sublist_of` content.
Proof.
  revert skip inside. induction content as [| c rest IH]; intros skip inside.
  - cbn. constructor.
  - cbn [filterThinkFrom].
    destruct skip as [| k]; [| by apply sublist_cons].
    destruct inside; cbn [negb].
    + destruct (startsWith thinkClose (c :: rest)); by apply sublist_cons.
    + destruct (startsWith thinkOpen (c :: rest)); [by apply sublist_cons |].
      specialize (IH 0 false).
      destruct (filterThinkFrom 0 false rest) as [result inside']. cbn in *.
      by apply sublist_skip.
Qed.

Lemma no_tag_at (tag : jsstring) (c : N) (rest : jsstring) :
  head tag = Some lessThan -> c <> lessThan -> startsWith tag (c :: rest) = false.
Proof.
  destruct tag as [| t tag]; [discriminate |].
  intros [= ->] Hc. cbn [startsWith]. apply andb_false_iff. left. apply N.eqb_neq. congruence.
Qed.

Lemma open_jump (rest : jsstring) :
  filterThinkFrom 0 false (thinkOpen ++ rest) = filterThinkFrom 0 true rest.
Proof.
  assert (startsWith thinkOpen (thinkOpen ++ rest) = true) as Hs.
  { apply startsWith_spec. by exists rest. }
  remember (thinkOpen ++ rest) as s eqn:Es.
  rewrite thinkOpen_units in Es. cbn [app] in Es. subst s.
  cbn [filterThinkFrom negb]. rewrite Hs.
  apply (filterThinkFrom_skip [0x74; 0x68; 0x69; 0x6E; 0x6B; 0x3E]%N).
Qed.

Lemma close_jump (rest : jsstring) :
  filterThinkFrom 0 true (thinkClose ++ rest) = filterThinkFrom 0 false rest.
Proof.
  assert (startsWith thinkClose (thinkClose ++ rest) = true) as Hs.
  { apply startsWith_spec. by exists rest. }
  remember (thinkClose ++ rest) as s eqn:Es.
  rewrite thinkClose_units in Es. cbn [app] in Es. subst s.
  cbn [filterThinkFrom negb]. rewrite Hs.
  apply (filterThinkFrom_skip [0x2F; 0x74; 0x68; 0x69; 0x6E; 0x6B; 0x3E]%N).
Qed.

Lemma outside_clean (a rest : jsstring) :
  Forall (fun c => c <> lessThan) a ->
  filterThinkFrom 0 false (a ++ rest)
  = (a ++ fst (filterThinkFrom 0 false rest), snd (filterThinkFrom 0 false rest)).
Proof.
  induction 1 as [| c a Hc Ha IH]; cbn [app].
  - by destruct (filterThinkFrom 0 false rest).
  - cbn [filterThinkFrom negb].
    rewrite (no_tag_at thinkOpen c (a ++ rest)); [| by rewrite thinkOpen_units | done].
    by rewrite IH.
Qed.

Lemma inside_clean (b rest : jsstring) :
  Forall (fun c => c <> lessThan) b ->
  filterThinkFrom 0 true (b ++ rest) = filterThinkFrom 0 true rest.
Proof.
  induction 1 as [| c b Hc Hb IH]; cbn [app]; [done |].
  cbn [filterThinkFrom negb].
  by rewrite (no_tag_at thinkClose c (b ++ rest)); [| by rewrite thinkClose_units | done].
Qed.

(** X17.  The filter only removes text: what it keeps of a chunk is a
    subsequence of the chunk, whatever the state it starts in. *)
Theorem filter_keeps_a_subsequence (inside : bool) (content : jsstring) :
  fst (filterThinkTags inside content) `sublist_of` content /\
  length (fst (filterThinkTags inside content)) <= length content.
Proof.
  pose proof (filterThinkFrom_sublist 0 inside content) as Hsub.
  split; [done |]. by apply sublist_length.
Qed.

(** X18.  Outside a block, a chunk in which the opening tag does not occur
    passes unchanged and the filter stays outside. *)
Theorem chunk_without_tag_passes (content : jsstring) :
  includes content thinkOpen = false ->
  filterThinkTags false content = (content, false).
Proof.
  unfold filterThinkTags.
  induction content as [| c rest IH]; [done |].
  cbn [includes]. intros [Hs Hrest]%orb_false_iff.
  cbn [filterThinkFrom negb]. by rewrite Hs, (IH Hrest).
Qed.

(** X19.  Inside a block, a chunk in which the closing tag does not occur is
    dropped whole and the filter stays inside. *)
Theorem chunk_inside_block_is_dropped (content : jsstring) :
  includes content thinkClose = false ->
  filterThinkTags true content = ([], true).
Proof.
  unfold filterThinkTags.
  induction content as [| c rest IH]; [done |].
  cbn [includes]. intros [Hs Hrest]%orb_false_iff.
  cbn [filterThinkFrom negb]. by rewrite Hs, (IH Hrest).
Qed.

(** X20.  A block is removed with its tags, also when it opens in one chunk
    and closes in a later one: the text before the opening tag is kept, the
    state is carried to the next chunk, and after the closing tag the filter
    goes on as outside.  (The text before the tag and the text of the block
    hold no [<].) *)
Theorem block_is_removed_across_chunks (a b1 b2 c : jsstring) :
  Forall (fun x => x <> lessThan) a ->
  Forall (fun x => x <> lessThan) b1 ->
  Forall (fun x => x <> lessThan) b2 ->
  filterThinkTags false (a ++ thinkOpen ++ b1) = (a, true) /\
  filterThinkTags true (b2 ++ thinkClose ++ c) = filterThinkTags false c /\
  filterThinkTags false (a ++ thinkOpen ++ b1 ++ b2 ++ thinkClose ++ c)
  = (a ++ fst (filterThinkTags false c), snd (filterThinkTags false c)).
Proof.
  intros Ha Hb1 Hb2. unfold filterThinkTags. repeat split.
  - rewrite (outside_clean a _ Ha), open_jump.
    rewrite <- (app_nil_r b1), (inside_clean b1 [] Hb1). cbn. by rewrite app_nil_r.
  - by rewrite (inside_clean b2 _ Hb2), close_jump.
  - rewrite (outside_clean a _ Ha), open_jump.
    by rewrite (inside_clean b1 _ Hb1), (inside_clean b2 _ Hb2), close_jump.
Qed.

(** ** The mode of the bot *)

Section Modes.
Context `{JsRuntime}.

Lemma detectBotMode_cases message history :
  detectBotMode message history = practice_client \/
  detectBotMode message history = supervisor \/
  detectBotMode message history = educator \/
  detectBotMode message history = therapist.
Proof.
  unfold detectBotMode. cbv zeta.
  destruct (existsb _ practiceKeywords); [by left |].
  destruct (existsb _ supervisorKeywords); [by right; left |].
  destruct (existsb _ educatorKeywords); [by right; right; left |].
  by right; right; right.
Qed.

Lemma practice_in_history message history m k :
  In m (lastElements 4 history) ->
  In k practiceKeywords ->
  includes (toLowerCase (content m)) k = true ->
  detectBotMode message history = practice_client.
Proof.
  intros Hm Hk Hin. unfold detectBotMode. cbv zeta.
  assert (existsb (includes
                     (toLowerCase message ++ js " "
                      ++ join (js " ")
                           (map (fun m => toLowerCase (content m)) (lastElements 4 history))))
                  practiceKeywords = true) as ->; [| done].
  apply (existsb_includes _ _ k Hk).
  apply includes_app_r, includes_app_r.
  apply (includes_join _ _ (toLowerCase (content m))); [| done].
  by apply (in_map (fun m => toLowerCase (content m))).
Qed.
End Modes.

(** X21.  The mode [chat] is dead: the detector never returns it, and a
    session whose stored mode is not [chat] never gets it as its active or
    stored mode. *)
Theorem chat_mode_is_never_used `{JsRuntime} (message : jsstring) (history : list Message)
        (stored : option BotMode) :
  stored <> Some chat ->
  detectBotMode message history <> chat /\
  fst (trackMode message history stored) <> chat /\
  snd (trackMode message history stored) <> Some chat.
Proof.
  intros Hstored.
  assert (detectBotMode message history <> chat) as Hd.
  { destruct (detectBotMode_cases message history) as [-> | [-> | [-> | ->]]]; discriminate. }
  split; [done |].
  unfold trackMode. cbv zeta.
  destruct (existsb _ exitCommands).
  - destruct (_ && _); cbn; split; discriminate.
  - destruct (_ && _); cbn; [split; congruence |].
    split; [| done]. destruct stored as [[]|]; cbn; congruence.
Qed.

(** X22.  An exit command wins: a message that holds one puts the session in
    the therapist mode, whatever the detector finds in it and whatever mode
    was stored. *)
Theorem exit_command_resets_mode `{JsRuntime} (message : jsstring) (history : list Message)
        (stored : option BotMode) :
  existsb (includes (toLowerCase message)) exitCommands = true ->
  trackMode message history stored = (therapist, Some therapist).
Proof.
  intros Hexit. unfold trackMode. cbv zeta.
  rewrite Hexit. by destruct (_ && _).
Qed.

(** X23.  The practice mode comes back by itself: while one of the last four
    messages of the conversation holds a practice keyword, every request
    without an exit command is served in the practice mode, also right after
    an exit command. *)
Theorem practice_mode_returns `{JsRuntime} (message : jsstring) (history : list Message)
        (stored : option BotMode) (m : Message) (k : jsstring) :
  In m (lastElements 4 history) ->
  In k practiceKeywords ->
  includes (toLowerCase (content m)) k = true ->
  existsb (includes (toLowerCase message)) exitCommands = false ->
  trackMode message history stored = (practice_client, Some practice_client).
Proof.
  intros Hm Hk Hin Hexit. unfold trackMode. cbv zeta.
  rewrite Hexit, (practice_in_history message history m k Hm Hk Hin).
  reflexivity.
Qed.

(** ** The practice for the end of the session *)

Lemma findPractice_Some (id : string) (p : Practice) :
  findPractice id = Some p -> In p IMPLEMENTATION_PRACTICES /\ practice_id p = js id.
Proof.
  unfold findPractice. generalize IMPLEMENTATION_PRACTICES as l. intros l E.
  apply find_some in E as [Hin Heq].
  split; [done |]. unfold eqs in Heq. by apply bool_decide_eq_true in Heq.
Qed.

Lemma findPractice_used (id : string) :
  In id ["morning-connection"; "body-check"; "new-action"; "breath-anchor"] ->
  is_Some (findPractice id).
Proof.
  intros [<- | [<- | [<- | [<- | []]]]]; vm_compute; by eexists.
Qed.

(** X24.  The practice is always found: for every context [selectHomework]
    returns an entry of [IMPLEMENTATION_PRACTICES], the one with the id its
    priority order picks (the image first, then the body, then the actions,
    the breathing anchor otherwise). *)
Theorem homework_is_always_found (c : TherapyContext) :
  exists p,
    selectHomework c = Some p /\
    In p IMPLEMENTATION_PRACTICES /\
    practice_id p
    = js (if truthy (ctx_metaphor c) || truthy (image (metaphorData c))
          then "morning-connection"
          else if truthy (bodyLocation c) || truthy (location (bodyworkData c))
          then "body-check"
          else if (0 <? length (newActions c))%nat || truthy (firstStep c)
          then "new-action"
          else "breath-anchor").
Proof.
  unfold selectHomework.
  destruct (_ || _); [| destruct (_ || _); [| destruct (_ || _)]];
    match goal with
    | |- exists p, findPractice ?id = Some p /\ _ =>
      destruct (findPractice_used id) as [p Hp];
        [cbn; tauto | exists p; split; [done | by apply findPractice_Some]]
    end.
Qed.

Lemma processTurn_homeworkInputs `{JsRuntime} history message s :
  homeworkInputs (context (processTurn history message s)) = homeworkInputs (context s).
Proof.
  rewrite processTurn_context. by_extractors.
Qed.

(** X25.  In every reachable state the practice chosen is the breathing
    anchor: nothing assigns the image, the body location, the actions or the
    first step, so the three branches before the default are never taken. *)
Theorem homework_is_always_the_default `{JsRuntime} (σ : Store) (id : jsstring)
        (st : SessionState) :
  reachable σ ->
  sessionStates σ !! id = Some st ->
  exists p, selectHomework (context st) = Some p /\ practice_id p = js "breath-anchor".
Proof.
  intros Hr Hst.
  assert (homeworkInputs (context st) = ([None; None; None; None; None], [])) as Hin.
  { apply (reachable_invariant
             (fun s => homeworkInputs (context s) = ([None; None; None; None; None], [])))
      with (σ := σ) (id := id); try done.
    intros history message s Hs. by rewrite processTurn_homeworkInputs. }
  unfold homeworkInputs in Hin. injection Hin as Hm Hi Hb Hl Hf Ha.
  unfold selectHomework. rewrite Hm, Hi, Hb, Hl, Hf, Ha. cbn [truthy orb length Nat.ltb Nat.leb].
  destruct (findPractice_used "breath-anchor") as [p Hp]; [cbn; tauto |].
  exists p. split; [done |]. by apply findPractice_Some in Hp as [_ ?].
Qed.

(** ** The helping question *)

(** X26.  For an empty question, which is what both callers pass, the result
    is the helper of the stage, and the helpers of two stages differ. *)
Theorem empty_question_gives_stage_helper (stage stage' : MPTStage) :
  stageSpecificHelpers stage = [getHelpingQuestion stage []] /\
  (getHelpingQuestion stage [] = getHelpingQuestion stage' [] -> stage = stage').
Proof.
  split.
  - destruct stage; vm_compute; reflexivity.
  - destruct stage, stage'; intros E; try reflexivity; vm_compute in E; discriminate E.
Qed.

(** X27.  The last fallback of [getHelpingQuestion] is dead: for every stage
    and every question the result is not the default question, and it is
    never empty. *)
Theorem default_helper_is_never_returned (stage : MPTStage) (question : jsstring) :
  getHelpingQuestion stage question <> defaultHelper /\
  getHelpingQuestion stage question <> [].
Proof.
  unfold getHelpingQuestion. cbv zeta.
  destruct (_ || _); [| destruct (_ || _); [| destruct (_ || _); [| destruct (_ || _)]]];
    try destruct stage;
    split; intros E; vm_compute in E; discriminate E.
Qed.

(** ** Reframing into authorship: the patterns that never decide *)

Section Engine.
Variable canon : N -> N.

Lemma run_RLit_app (l w rest : jsstring) (k : cont) (b : bool) (cap : option jsstring) :
  sameText canon l w ->
  run canon (RLit l) k b (w ++ rest) cap
  = k (match l with [] => b | _ :: _ => false end) rest cap.
Proof.
  intros Hlw. revert b. induction Hlw as [| c ch l w Hc Hlw IH]; intros b; cbn; [done |].
  rewrite Hc, N.eqb_refl. rewrite IH. by destruct l.
Qed.

Lemma run_RLit_inv (l inp : jsstring) (k : cont) (b : bool) (cap : option jsstring) res :
  run canon (RLit l) k b inp cap = Some res ->
  exists w rest b', inp = w ++ rest /\ sameText canon l w /\ k b' rest cap = Some res.
Proof.
  revert b inp. induction l as [| c l IH]; intros b inp; cbn.
  - intros Hk. exists [], inp, b. repeat split; [constructor | done].
  - destruct inp as [| ch inp]; [discriminate |].
    destruct (N.eqb_spec (canon c) (canon ch)) as [Hc | Hc]; [| discriminate].
    intros Hrun. apply IH in Hrun as (w & rest & b' & -> & Hw & Hk).
    exists (ch :: w), rest, b'. repeat split; [by constructor | done].
Qed.

Lemma execFrom_inv (r : regex) (b : bool) (inp : jsstring) res :
  execFrom canon r b inp = Some res ->
  exists pre suf b', inp = pre ++ suf /\ run canon r matched b' suf None = Some res.
Proof.
  revert b. induction inp as [| ch inp IH]; intros b; cbn [execFrom].
  - destruct (run canon r _ b [] None) as [cap |] eqn:E; [| discriminate].
    intros [= <-]. by exists [], [], b.
  - destruct (run canon r _ b (ch :: inp) None) as [cap |] eqn:E.
    + intros [= <-]. by exists [], (ch :: inp), b.
    + intros Hrest. apply IH in Hrest as (pre & suf & b' & -> & Hrun).
      by exists (ch :: pre), suf, b'.
Qed.

Lemma execFrom_intro (r : regex) (pre suf : jsstring) (b : bool) :
  (forall b', is_Some (run canon r matched b' suf None)) ->
  is_Some (execFrom canon r b (pre ++ suf)).
Proof.
  intros Hsuf. revert b. induction pre as [| ch pre IH]; intros b.
  - cbn [app]. destruct (Hsuf b) as [cap Hcap].
    destruct suf; cbn [execFrom]; unfold matched in Hcap; rewrite Hcap; by eexists.
  - cbn [app execFrom].
    destruct (run canon r _ b (ch :: pre ++ suf) None); [by eexists | apply IH].
Qed.

(** A text that holds [l1] followed by the second of three alternatives is
    matched by [l1(la|lb|lc)]. *)
Lemma second_alternative_matches (l1 la lb lc w1 wb rest : jsstring) (b : bool) :
  sameText canon l1 w1 ->
  sameText canon lb wb ->
  is_Some (run canon (rseq [RLit l1; RGroup1 (ralt [RLit la; RLit lb; RLit lc])])
               matched b (w1 ++ wb ++ rest) None).
Proof.
  intros H1 Hb. cbn [rseq foldr ralt run].
  rewrite (run_RLit_app _ _ _ _ _ _ H1).
  cbn [run].
  match goal with
  | |- is_Some (match ?first with Some res => Some res | None => _ end) =>
    destruct first; [by eexists |]
  end.
  match goal with
  | |- is_Some (match ?second with Some res => Some res | None => _ end) =>
    assert (is_Some second) as [res ->]; [| by eexists]
  end.
  rewrite (run_RLit_app _ _ _ _ _ _ Hb). by eexists.
Qed.

(** Every text that [l0 l1 lb] matches somewhere is matched by
    [l1(la|lb|lc)]. *)
Lemma literal_shadowed (l0 l1 la lb lc inp : jsstring) :
  is_Some (execFrom canon (rseq [RLit (l0 ++ l1 ++ lb)]) true inp) ->
  is_Some (execFrom canon (rseq [RLit l1; RGroup1 (ralt [RLit la; RLit lb; RLit lc])])
                    true inp).
Proof.
  intros [res Hres].
  apply execFrom_inv in Hres as (pre & suf & b' & -> & Hrun).
  cbn [rseq foldr run] in Hrun.
  apply run_RLit_inv in Hrun as (w & rest & b'' & -> & Hw & _).
  apply Forall2_app_inv_l in Hw as (w0 & w' & H0 & Hw' & ->).
  apply Forall2_app_inv_l in Hw' as (w1 & wb & H1 & Hb & ->).
  replace (pre ++ (w0 ++ w1 ++ wb) ++ rest) with ((pre ++ w0) ++ w1 ++ wb ++ rest)
    by (by rewrite <- !app_assoc).
  apply execFrom_intro. intros b. by apply second_alternative_matches.
Qed.
End Engine.

Lemma authorshipSentence_inj (message t t' : jsstring) :
  authorshipSentence message t = authorshipSentence message t' -> t = t'.
Proof.
  unfold authorshipSentence. intros E.
  do 6 apply app_inv_head in E. by apply app_inv_tail in E.
Qed.

Lemma test_is_Some `{JsRuntime} (r : regex) (s : jsstring) :
  test (icase r) s = true <-> is_Some (execFrom canonicalize r true s).
Proof.
  unfold test, matchGroup1; cbn [ignoreCase source icase].
  destruct (execFrom canonicalize r true s); cbn; split;
    first [done | by eexists | intros [? ?]; discriminate].
Qed.

Lemma split_lookup {A} (l before after : list A) (e : A) :
  l = before ++ e :: after ->
  l !! length before = Some e /\
  forall j x, before !! j = Some x -> l !! j = Some x.
Proof.
  intros ->. split.
  - by rewrite list_lookup_middle.
  - intros j x Hj. by apply lookup_app_l_Some.
Qed.

(** The entries whose reframing is [t]: only the entry at [index]. *)
Ltac only_entry Hi Hs :=
  do 41 (match goal with
         | i : nat |- _ =>
           destruct i as [| i];
           [vm_compute in Hi; injection Hi as <-; vm_compute in Hs;
            first [discriminate Hs | reflexivity] |]
         end);
  vm_compute in Hi; discriminate Hi.

Lemma he_angers_me_entry (i : nat) (e : pattern * jsstring) :
  AUTHORSHIP_TRANSFORMATIONS !! i = Some e ->
  snd e = js "я ЗЛЮСЬ, когда он" ->
  i = 22.
Proof. intros Hi Hs. only_entry Hi Hs. Qed.

Lemma she_angers_me_entry (i : nat) (e : pattern * jsstring) :
  AUTHORSHIP_TRANSFORMATIONS !! i = Some e ->
  snd e = js "я ЗЛЮСЬ, когда она" ->
  i = 23.
Proof. intros Hi Hs. only_entry Hi Hs. Qed.

Lemma table_first_entry :
  AUTHORSHIP_TRANSFORMATIONS !! 0
  = Some (icase (rseq [lit "меня ";
                       RGroup1 (ralt [lit "раздражает"; lit "бесит"; lit "злит"])]),
          js "я раздражаюсь на").
Proof. reflexivity. Qed.

Lemma table_he_entry :
  AUTHORSHIP_TRANSFORMATIONS !! 22
  = Some (icase (rseq [RLit (js "он " ++ js "меня " ++ js "бесит")]),
          js "я ЗЛЮСЬ, когда он").
Proof. vm_compute. reflexivity. Qed.

Lemma table_she_entry :
  AUTHORSHIP_TRANSFORMATIONS !! 23
  = Some (icase (rseq [RLit (js "она " ++ js "меня " ++ js "бесит")]),
          js "я ЗЛЮСЬ, когда она").
Proof. vm_compute. reflexivity. Qed.

Lemma first_entry_shadows `{JsRuntime} (message : jsstring) (l0 : jsstring) :
  test (icase (rseq [RLit (l0 ++ js "меня " ++ js "бесит")])) message = true ->
  test (icase (rseq [lit "меня "; RGroup1 (ralt [lit "раздражает"; lit "бесит"; lit "злит"])]))
       message = true.
Proof.
  rewrite !test_is_Some. apply literal_shadowed.
Qed.

(** The entry that decides [transformToAuthorship], when its reframing is
    [t] and the only entry with that reframing is the one at [index] with
    the pattern [icase r]: the first entry of the table does not match and
    [icase r] does. *)
Lemma deciding_entry `{JsRuntime} (message t : jsstring) (index : nat) (r : regex) :
  (forall i e, AUTHORSHIP_TRANSFORMATIONS !! i = Some e -> snd e = t -> i = index) ->
  AUTHORSHIP_TRANSFORMATIONS !! index = Some (icase r, t) ->
  0 < index ->
  transformToAuthorship message = Some (authorshipSentence message t) ->
  test (icase r) message = true /\
  exists e0, AUTHORSHIP_TRANSFORMATIONS !! 0 = Some e0 /\ test (fst e0) message = false.
Proof.
  intros Honly Hentry Hpos E. unfold transformToAuthorship in E.
  apply firstSome_Some in E as (before & e & after & Hl & He & Hbefore).
  destruct (test (fst e) message) eqn:Htest; [| discriminate].
  assert (authorshipSentence message (snd e) = authorshipSentence message t) as Hs
      by congruence.
  clear He. apply authorshipSentence_inj in Hs. rename Hs into He.
  apply split_lookup in Hl as [Hi Hj].
  pose proof (Honly _ _ Hi He) as Hlen.
  rewrite Hlen, Hentry in Hi. injection Hi as <-.
  split; [done |].
  destruct before as [| e0 before]; [cbn in Hlen; lia |].
  exists e0. split; [by apply (Hj 0) |].
  apply Forall_cons in Hbefore as [H0 _].
  by destruct (test (fst e0) message).
Qed.

(** X28.  The entries [/он меня бесит/] and [/она меня бесит/] of the table
    never decide: every message they match is matched by the first entry,
    [/меня (раздражает|бесит|злит)/], so their reframings are never the ones
    returned. *)
Theorem angry_reframings_are_never_returned `{JsRuntime} (message : jsstring) :
  transformToAuthorship message
    <> Some (authorshipSentence message (js "я ЗЛЮСЬ, когда он")) /\
  transformToAuthorship message
    <> Some (authorshipSentence message (js "я ЗЛЮСЬ, когда она")).
Proof.
  split; intros E.
  - apply (deciding_entry message _ 22 _ he_angers_me_entry table_he_entry) in E
      as [Hlate (e0 & H0 & Hfirst)]; [| lia].
    rewrite table_first_entry in H0. injection H0 as <-. cbn [fst] in Hfirst.
    apply first_entry_shadows in Hlate.
    cbn [rseq foldr ralt] in Hlate, Hfirst. congruence.
  - apply (deciding_entry message _ 23 _ she_angers_me_entry table_she_entry) in E
      as [Hlate (e0 & H0 & Hfirst)]; [| lia].
    rewrite table_first_entry in H0. injection H0 as <-. cbn [fst] in Hfirst.
    apply first_entry_shadows in Hlate.
    cbn [rseq foldr ralt] in Hlate, Hfirst. congruence.
Qed.

(** ** The further properties at sample inputs *)

Lemma reachable_afterRating : @reachable Basic.runtime afterRating.
Proof.
  apply (@reachable_serve Basic.runtime); [apply reachable_empty |].
  vm_compute. repeat split.
Qed.

Lemma reachable_completedStore : @reachable Basic.runtime completedStore.
Proof.
  apply (@reachable_serve Basic.runtime); [apply reachable_empty |].
  vm_compute. repeat split.
Qed.

Lemma requestType_stable_witness :
  exists st',
    sessionStates (@serve Basic.runtime [contextTurn; ratingTurn] afterThesis) !! uuid1
      = Some st' /\
    requestType st' = requestType (stateOf afterThesis uuid1 []).
Proof.
  apply (@requestType_stable Basic.runtime [contextTurn; ratingTurn] afterThesis uuid1).
  - vm_compute. repeat split.
  - vm_compute. reflexivity.
Defined.

Lemma originalRequest_stable_witness :
  exists st',
    sessionStates (@serve Basic.runtime [contextTurn; ratingTurn] afterThesis) !! uuid1
      = Some st' /\
    originalRequest (context st') = originalRequest (context (stateOf afterThesis uuid1 [])).
Proof.
  apply (@originalRequest_stable Basic.runtime [contextTurn; ratingTurn] afterThesis uuid1).
  - vm_compute. repeat split.
  - vm_compute. reflexivity.
Defined.

Lemma stageHistory_witness :
  stageHistory (stateOf afterRating uuid1 [])
  = take (stageIndex (currentStage (stateOf afterRating uuid1 []))) MPT_STAGE_ORDER.
Proof.
  apply (@stageHistory_is_order_prefix Basic.runtime afterRating uuid1).
  - exact reachable_afterRating.
  - vm_compute. reflexivity.
Defined.

Lemma sessions_new_witness :
  exists st,
    sessionStates
      (@serve Basic.runtime (PostSessionsNew uuid1 :: [dontKnowTurn; dontKnowTurn]) emptyStore)
      !! uuid1 = Some st /\
    currentStage st = start_session /\
    originalRequest (context st) = None /\
    requestType st = None /\
    sessionComplete st = false.
Proof.
  apply (@sessions_new_never_advances Basic.runtime uuid1 [dontKnowTurn; dontKnowTurn]
                                      emptyStore).
  vm_compute. repeat split.
Defined.

Lemma session_completes_witness :
  sessionComplete
    (@runTurns Basic.runtime dontKnowTurns
               (@newSessionState Basic.runtime (js "I keep putting off writing my thesis")))
  = true.
Proof.
  apply (@session_completes_within_33_turns Basic.runtime).
  - discriminate.
  - vm_compute. lia.
Defined.

Lemma complete_only_at_finish_witness :
  currentStage (stateOf completedStore uuid1 []) = finish /\
  2 <= stageResponseCount (stateOf completedStore uuid1 []).
Proof.
  apply (@complete_only_at_finish Basic.runtime completedStore uuid1).
  - exact reachable_completedStore.
  - vm_compute. reflexivity.
  - vm_compute. reflexivity.
Defined.

Lemma completion_is_permanent_witness :
  exists st',
    sessionStates (@serve Basic.runtime [dontKnowTurn] completedStore) !! uuid1 = Some st' /\
    sessionComplete st' = true.
Proof.
  apply (@completion_is_permanent Basic.runtime [dontKnowTurn] completedStore uuid1
                                  (stateOf completedStore uuid1 [])).
  - vm_compute. repeat split.
  - vm_compute. reflexivity.
  - vm_compute. reflexivity.
Defined.

Lemma stored_rating_witness : 1 <= 8 <= 10.
Proof.
  apply (@stored_rating_in_range Basic.runtime afterRating uuid1 (stateOf afterRating uuid1 [])).
  - exact reachable_afterRating.
  - vm_compute. reflexivity.
  - vm_compute. reflexivity.
Defined.

Lemma count_below_ceiling_witness : stageResponseCount (stateOf afterRating uuid1 []) < 4.
Proof.
  apply (@count_below_ceiling Basic.runtime afterRating uuid1).
  - exact reachable_afterRating.
  - vm_compute. reflexivity.
  - vm_compute. reflexivity.
Defined.

Lemma every_session_has_a_state_witness :
  is_Some (sessions afterRating !! uuid1) <-> is_Some (sessionStates afterRating !! uuid1).
Proof.
  apply (@every_session_has_a_state Basic.runtime). exact reachable_afterRating.
Defined.

Lemma history_is_append_only_witness :
  historyOf afterThesis uuid1
  `prefix_of` historyOf (@serve Basic.runtime [contextTurn; ratingTurn] afterThesis) uuid1.
Proof.
  apply (@history_is_append_only Basic.runtime). vm_compute. repeat split.
Defined.

Lemma unknown_session_witness :
  fst (@postChat Basic.runtime uuid2 None (bodyFor (js "no-such-session") (js "привет"))
                 afterThesis)
    = EventStream uuid2 collect_context (bool_decide (is_Some (@None jsstring))) /\
  historyOf (snd (@postChat Basic.runtime uuid2 None
                            (bodyFor (js "no-such-session") (js "привет")) afterThesis))
            uuid2
    = {| role := user;
         content := message {| message := js "привет";
                               sessionId := Some (js "no-such-session");
                               scenarioId := None |} |}
      :: replyMessages None.
Proof.
  apply (@unknown_session_opens_new Basic.runtime uuid2 None
           (bodyFor (js "no-such-session") (js "привет"))
           {| message := js "привет"; sessionId := Some (js "no-such-session");
              scenarioId := None |}
           afterThesis).
  - vm_compute. reflexivity.
  - vm_compute. reflexivity.
Defined.

Lemma known_session_witness :
  historyOf (snd (@postChat Basic.runtime uuid2 (Some (js "Хорошо"))
                            (bodyFor uuid1 (js "8 из 10")) afterThesis)) uuid1
    = historyOf afterThesis uuid1
      ++ {| role := user;
            content := message {| message := js "8 из 10"; sessionId := Some uuid1;
                                  scenarioId := None |} |}
      :: replyMessages (Some (js "Хорошо")) /\
  exists stage,
    fst (@postChat Basic.runtime uuid2 (Some (js "Хорошо")) (bodyFor uuid1 (js "8 из 10"))
                   afterThesis)
    = EventStream uuid1 stage (bool_decide (is_Some (Some (js "Хорошо")))).
Proof.
  apply (@known_session_appends Basic.runtime uuid2 (Some (js "Хорошо"))
           (bodyFor uuid1 (js "8 из 10"))
           {| message := js "8 из 10"; sessionId := Some uuid1; scenarioId := None |}
           afterThesis uuid1).
  - vm_compute. reflexivity.
  - vm_compute. reflexivity.
Defined.

Lemma extracted_name_witness :
  exists msg p token,
    In msg [{| role := user; content := js "Привет, я Анна" |}] /\
    role msg = user /\ In p namePatterns /\
    @matchGroup1 Basic.runtime p (content msg) = Some (Some token) /\
    2 <= length token <= 20 /\
    js "Анна" = @toUpperCase Basic.runtime (take 1 token)
                ++ @toLowerCase Basic.runtime (drop 1 token) /\
    arrayIncludes stopWords (@toLowerCase Basic.runtime (js "Анна")) = false.
Proof.
  apply (@extracted_name_shape Basic.runtime).
  vm_compute. reflexivity.
Defined.

Lemma chunk_without_tag_witness :
  filterThinkTags false (js "Расскажи, что ты чувствуешь?")
  = (js "Расскажи, что ты чувствуешь?", false).
Proof.
  apply chunk_without_tag_passes. vm_compute. reflexivity.
Defined.

Lemma chunk_inside_block_witness :
  filterThinkTags true (js "клиент говорит о страхе <") = ([], true).
Proof.
  apply chunk_inside_block_is_dropped. vm_compute. reflexivity.
Defined.

Lemma block_removed_witness :
  filterThinkTags false (js "Привет. " ++ thinkOpen ++ js "клиент") = (js "Привет. ", true) /\
  filterThinkTags true (js " устал" ++ thinkClose ++ js "Как ты?")
  = filterThinkTags false (js "Как ты?") /\
  filterThinkTags false
    (js "Привет. " ++ thinkOpen ++ js "клиент" ++ js " устал" ++ thinkClose ++ js "Как ты?")
  = (js "Привет. " ++ fst (filterThinkTags false (js "Как ты?")),
     snd (filterThinkTags false (js "Как ты?"))).
Proof.
  apply block_is_removed_across_chunks;
    apply (bool_decide_unpack _); vm_compute; exact I.
Defined.

Lemma chat_mode_witness :
  @detectBotMode Basic.runtime (js "как ты?") practiceHistory <> chat /\
  fst (@trackMode Basic.runtime (js "как ты?") practiceHistory (Some educator)) <> chat /\
  snd (@trackMode Basic.runtime (js "как ты?") practiceHistory (Some educator)) <> Some chat.
Proof.
  apply (@chat_mode_is_never_used Basic.runtime). discriminate.
Defined.

Lemma exit_command_witness :
  @trackMode Basic.runtime (js "Хочу попрактиковаться, но сначала выйти из режима") []
             (Some supervisor)
  = (therapist, Some therapist).
Proof.
  apply (@exit_command_resets_mode Basic.runtime). vm_compute. reflexivity.
Defined.

Lemma practice_mode_witness :
  @trackMode Basic.runtime (js "расскажи о себе") practiceHistory (Some therapist)
  = (practice_client, Some practice_client).
Proof.
  apply (@practice_mode_returns Basic.runtime (js "расскажи о себе") practiceHistory
           (Some therapist)
           {| role := user; content := js "Хочу попрактиковаться в роли терапевта" |}
           (js "хочу попрактиковаться")).
  - vm_compute. auto.
  - vm_compute. auto.
  - vm_compute. reflexivity.
  - vm_compute. reflexivity.
Defined.

Lemma homework_default_witness :
  exists p,
    selectHomework (context (stateOf completedStore uuid1 [])) = Some p /\
    practice_id p = js "breath-anchor".
Proof.
  apply (@homework_is_always_the_default Basic.runtime completedStore uuid1).
  - exact reachable_completedStore.
  - vm_compute. reflexivity.
Defined.
